(** * Payout lifecycle engine and rate aggregator (Nopass0/p2p)

    A shallow embedding of

      - [src/service/rate.ts]   ([RateService.updateRates], [calculateAccurateRate]),
      - [src/api/payout.ts]     ([validateAmount], [validateTimes], the
                                 [/payout/create] handler and its expiry timer,
                                 the [/payout/status] and
                                 [/payout/screenshot/:filename] handlers),
      - [src/bot/index.ts]      (the middleware, [sendPayoutRequest], the
                                 short-id mapping, [handleAcceptPayout],
                                 [handleScreenshotUpload], [handleMessage] with
                                 the balance and operator inputs, the [ap],
                                 [cancel_action], [set_balance] and
                                 [add_operator] handlers),
      - [src/constants/banks.ts] ([validateBankId], [getBankName]),

    followed by the properties of the specification stated over it, and by
    further properties of the code.

    Modelling conventions.
      - The rates of [src/service/rate.ts] are IEEE 754 doubles
        ([spec_float] at precision 53 and maximal exponent 1024, with the
        operations of the Standard Library's [SpecFloat]): sums and
        quotients round to nearest even, overflow to an infinity, and NaN
        is a value.  Amounts, balances and times, which the code only
        compares and stores, are exact rationals ([Qc]).  An array read out
        of range ([undefined]) is [None].
      - The Prisma tables are finite maps keyed by their unique column.  A
        read never rejects; a write rejects exactly when Prisma would (no
        row to update, a unique column taken, a foreign key without row).
      - Every handler is an [async] function: it is written as a resumption
        ([Prog]) whose [Step]s are the awaited calls and the synchronous
        blocks between them, so that the same text gives the handler run
        alone ([run]) and the handler interleaved with others ([exec]).
      - Everything that leaves the process (bot replies, operator
        notifications, callback POSTs, log lines the properties mention) is
        appended to the [outbox] of the world.  A reply to the operator who
        just acted goes through; [answerCbQuery], [editMessageReplyMarkup]
        and the informational log lines, which touch nothing the properties
        speak of, are left out.
      - An API request is one that passed the token check and the schema of
        its route: a handler is modelled from its first statement.
      - [ctx.from] is always present. *)

From Stdlib Require Import QArith Qcanon Ascii String SpecFloat.
From stdpp Require Import base decidable option numbers strings list gmap sorting.

Local Open Scope Z_scope.
Local Open Scope Qc_scope.
Local Open Scope string_scope.
Local Open Scope list_scope.
Local Open Scope stdpp_scope.

(** ** JavaScript values *)

(** A [number]. *)
Abbreviation Number := Qc.

Definition num (n : Z) : Number := Qc_of_Z n.

(** [a >= b] and [a <= b] on numbers. *)
Definition geq (a b : Number) : bool := bool_decide (b ≤ a)%Qc.
Definition leq (a b : Number) : bool := bool_decide (a ≤ b)%Qc.
Definition lt (a b : Number) : bool := bool_decide (a < b)%Qc.

(** Truthiness of a possibly [undefined] string: [undefined] and [""] are
    falsy. *)
Definition truthy (s : option string) : bool :=
  match s with
  | Some s => negb (bool_decide (s = ""))
  | None => false
  end.

(** [s.substring(0, n)]. *)
Definition substring0 (n : nat) (s : string) : string := String.substring 0 n s.

(** [s.slice(-n)]: the last [n] characters (the whole string when shorter). *)
Definition slice_last (n : nat) (s : string) : string :=
  String.substring (String.length s - n) n s.

(** [c.toLowerCase()] on the ASCII range. *)
Definition lower_ascii (c : ascii) : ascii :=
  let n := nat_of_ascii c in
  if (Nat.leb 65 n && Nat.leb n 90)%bool then ascii_of_nat (n + 32) else c.

Fixpoint toLowerCase (s : string) : string :=
  match s with
  | EmptyString => EmptyString
  | String c r => String (lower_ascii c) (toLowerCase r)
  end.

(** ** prisma/schema.prisma *)

Inductive TransactionStatus :=
  PENDING | ACCEPTED | COMPLETED | FAILED | EXPIRED | CANCELLED.

Global Instance TransactionStatus_eq_dec : EqDecision TransactionStatus.
Proof. solve_decision. Defined.

(** The terminal states of the lifecycle. *)
Definition terminal (s : TransactionStatus) : bool :=
  match s with
  | COMPLETED | FAILED | EXPIRED | CANCELLED => true
  | PENDING | ACCEPTED => false
  end.

(** [model Transaction].  [tx_metadata] holds [{sbp_bank, expiredTime}]. *)
Record Transaction := mkTransaction {
  tx_id : string;
  tx_amount : Number;
  tx_currency : string;
  tx_status : TransactionStatus;
  tx_paymentMethod : string;
  tx_userId : option string;
  tx_destination : option string;
  tx_callbackUrl : option string;
  tx_metadata : option string * Number;
  tx_expiresAt : Number;
}.

(** [model User]. *)
Record User := mkUser {
  user_id : string;
  user_telegramId : Z;
  user_username : option string;
  user_isAdmin : bool;
  user_balance : Number;
  user_maxBalance : Number;
}.

(** [model Screenshot]; [transactionId] is [@unique]. *)
Record Screenshot := mkScreenshot {
  shot_path : string;
  shot_transactionId : string;
  shot_userId : string;
}.

(** ** src/bot/index.ts: in-memory state *)

(** [interface UserState]. *)
Record UserState := mkUserState {
  awaitingBalance : bool;
  awaitingOperatorId : bool;
  awaitingScreenshot : bool;
  currentTransactionId : option string;
}.

(** The object literal every handler writes to leave an input mode. *)
Definition idleState : UserState :=
  {| awaitingBalance := false; awaitingOperatorId := false;
     awaitingScreenshot := false; currentTransactionId := None |}.

(** ** What leaves the process *)

(** The texts the bot sends with [ctx.reply]; one constructor per text. *)
Inductive Reply :=
  | MsgMappingNotFound      (* "Транзакция не найдена или устарела" *)
  | MsgTransactionNotFound  (* "Транзакция не найдена" *)
  | MsgPayoutNotFound       (* "Заявка не найдена" *)
  | MsgNotActive            (* "Эта заявка уже не активна (неверный статус)" *)
  | MsgAcceptUserNotFound   (* "Ошибка: пользователь не найден" *)
  | MsgAccepted (destination : string) (* "Заявка успешно принята! ..." *)
  | MsgNoLongerAvailable    (* "Эта заявка уже недоступна" *)
  | MsgAcceptError          (* "Произошла ошибка при принятии заявки" *)
  | MsgFileUnavailable      (* "Не удалось получить файл." *)
  | MsgUploadUserNotFound   (* "Пользователь не найден" *)
  | MsgScreenshotUploaded   (* "Скриншот успешно загружен! ..." *)
  | MsgUploadError          (* "Произошла ошибка при загрузке скриншота" *)
  | MsgActionCancelled      (* "Действие отменено" *)
  | MsgMainMenu             (* showMainMenu *)
  | MsgAskBalance           (* "Установка баланса ..." *)
  | MsgAskOperatorId        (* "Добавление нового оператора ..." *)
  | MsgBadAmount            (* "Некорректная сумма ..." *)
  | MsgNegativeAmount       (* "Сумма не может быть отрицательной" *)
  | MsgBalanceSet           (* "Баланс успешно установлен! ..." *)
  | MsgBalanceError         (* "Произошла ошибка при установке баланса" *)
  | MsgOperatorAdded        (* "Оператор успешно ..." *)
  | MsgOperatorError.       (* "Ошибка! Проверьте правильность ID ..." *)

Global Instance Reply_eq_dec : EqDecision Reply.
Proof. solve_decision. Defined.

Inductive Event :=
  | EvReply (chat : Z) (r : Reply)
      (* ctx.reply *)
  | EvPayoutRequest (operator : Z) (transactionId shortTxId shortDestination : string)
      (* the message with the "ap:<short>:<dest>" button *)
  | EvAdminNotice (transactionId : string)
      (* "Новый скриншот загружен" to ADMIN_TELEGRAM_ID *)
  | EvCallback (url external_id : string) (status : Z)
      (* fetch(callback_url, POST {external_id, status, reason}) *)
  | EvCallbackFailureLogged (url : string)
      (* logger.error("Failed to send callback notification:") *)
  | EvSendFailureLogged (operator : Z) (transactionId : string).
      (* logger.error("Error sending payout request to operator") *)

Global Instance Event_eq_dec : EqDecision Event.
Proof. solve_decision. Defined.

(** The failure conditions of the specification a reply stands for. *)
Inductive Condition := StaleState | NotFound | Unauthorized.

Global Instance Condition_eq_dec : EqDecision Condition.
Proof. solve_decision. Defined.

Definition condition (r : Reply) : option Condition :=
  match r with
  | MsgNotActive | MsgNoLongerAvailable => Some StaleState
  | MsgMappingNotFound | MsgTransactionNotFound | MsgPayoutNotFound => Some NotFound
  | _ => None
  end.

(** ** The world a handler runs in *)

Record World := mkWorld {
  db_transaction : gmap string Transaction;   (* keyed by id *)
  db_user : list User;                        (* telegramId unique *)
  db_screenshot : gmap string Screenshot;     (* keyed by transactionId *)
  userStates : gmap Z UserState;
  transactionMappings : gmap string string;
  timers : list (string * string);            (* armed expiry timers: id, callback url *)
  outbox : list Event;                        (* oldest first *)
}.

Definition emptyWorld : World :=
  {| db_transaction := ∅; db_user := []; db_screenshot := ∅; userStates := ∅;
     transactionMappings := ∅; timers := []; outbox := [] |}.

Definition set_transactions (f : gmap string Transaction → gmap string Transaction)
    (w : World) : World :=
  {| db_transaction := f (db_transaction w); db_user := db_user w;
     db_screenshot := db_screenshot w; userStates := userStates w;
     transactionMappings := transactionMappings w; timers := timers w;
     outbox := outbox w |}.

Definition set_users (f : list User → list User) (w : World) : World :=
  {| db_transaction := db_transaction w; db_user := f (db_user w);
     db_screenshot := db_screenshot w; userStates := userStates w;
     transactionMappings := transactionMappings w; timers := timers w;
     outbox := outbox w |}.

Definition set_screenshots (f : gmap string Screenshot → gmap string Screenshot)
    (w : World) : World :=
  {| db_transaction := db_transaction w; db_user := db_user w;
     db_screenshot := f (db_screenshot w); userStates := userStates w;
     transactionMappings := transactionMappings w; timers := timers w;
     outbox := outbox w |}.

Definition set_userStates (f : gmap Z UserState → gmap Z UserState)
    (w : World) : World :=
  {| db_transaction := db_transaction w; db_user := db_user w;
     db_screenshot := db_screenshot w; userStates := f (userStates w);
     transactionMappings := transactionMappings w; timers := timers w;
     outbox := outbox w |}.

Definition set_mappings (f : gmap string string → gmap string string)
    (w : World) : World :=
  {| db_transaction := db_transaction w; db_user := db_user w;
     db_screenshot := db_screenshot w; userStates := userStates w;
     transactionMappings := f (transactionMappings w); timers := timers w;
     outbox := outbox w |}.

Definition set_timers (f : list (string * string) → list (string * string))
    (w : World) : World :=
  {| db_transaction := db_transaction w; db_user := db_user w;
     db_screenshot := db_screenshot w; userStates := userStates w;
     transactionMappings := transactionMappings w; timers := f (timers w);
     outbox := outbox w |}.

Definition emit (e : Event) (w : World) : World :=
  {| db_transaction := db_transaction w; db_user := db_user w;
     db_screenshot := db_screenshot w; userStates := userStates w;
     transactionMappings := transactionMappings w; timers := timers w;
     outbox := outbox w ++ [e] |}.

(** A call that may reject: the awaited promise is fulfilled or throws. *)
Inductive Settled (A : Type) :=
  | Fulfilled (a : A)
  | Rejected.
Arguments Fulfilled {A} a.
Arguments Rejected {A}.

(** ** Asynchronous handlers as resumptions *)

(** The external call an atomic action stands for.  [TransactionUpdate]
    records the [where] clause as the source writes it: always the id alone,
    with the status the row must still have left out ([where_status = None]).
    [Local] is a synchronous block of in-memory work between two awaits. *)
Inductive Call :=
  | TransactionFindUnique (id : string)
  | TransactionCreate (id : string)
  | TransactionUpdate (where_id : string) (where_status : option TransactionStatus)
      (data_status : TransactionStatus)
  | UserFindUnique (telegramId : Z)
  | UserFindMany
  | UserCreate (telegramId : Z)
  | UserUpdate (telegramId : Z)
  | ScreenshotCreate (transactionId : string)
  | TelegramSend (chat : Z)
  | TelegramGetFile
  | Download
  | WriteFile (fileName : string)
  | HttpPost (url : string)
  | Local.

Global Instance Call_eq_dec : EqDecision Call.
Proof. solve_decision. Defined.

(** An atomic action: its label and its effect on the world. *)
Record Awaitable (X : Type) := mkAwaitable {
  label : Call;
  effect : World → X * World;
}.
Arguments mkAwaitable {X} label effect.
Arguments label {X} a.
Arguments effect {X} a w.

(** A handler: it returns, or performs one atomic action and continues, or
    opens a [db.$transaction(async (prisma) => ...)] block and continues with
    the block's result. *)
Inductive Prog (A : Type) : Type :=
  | Ret (a : A)
  | Step {X : Type} (a : Awaitable X) (k : X → Prog A)
  | DbTransaction {X : Type} (body : Prog X) (k : X → Prog A).
Arguments Ret {A} a.
Arguments Step {A X} a k.
Arguments DbTransaction {A X} body k.

Notation "'await' x ← a ; k" := (Step a (λ x, k))
  (at level 10, x name, a at level 100, k at level 200,
   format "'[v' 'await'  x  ←  a ; '/' k ']'").

Fixpoint bind {A B} (p : Prog A) (f : A → Prog B) : Prog B :=
  match p with
  | Ret a => f a
  | Step a k => Step a (λ x, bind (k x) f)
  | DbTransaction body k => DbTransaction body (λ x, bind (k x) f)
  end.

(** The handler run alone, from start to end. *)
Fixpoint run {A} (p : Prog A) (w : World) : A * World :=
  match p with
  | Ret a => (a, w)
  | Step a k => let '(x, w') := effect a w in run (k x) w'
  | DbTransaction body k => let '(x, w') := run body w in run (k x) w'
  end.

(** The calls the handler makes when run alone from [w], in order. *)
Fixpoint calls {A} (p : Prog A) (w : World) : list Call :=
  match p with
  | Ret _ => []
  | Step a k => let '(x, w') := effect a w in label a :: calls (k x) w'
  | DbTransaction body k =>
      let '(x, w') := run body w in calls body w ++ calls (k x) w'
  end.

(** One atomic action of the handler.  With [atomic = true] a transaction
    block is one indivisible action; with [atomic = false] its statements are
    actions of their own, between which other handlers may act. *)
Fixpoint step {A} (atomic : bool) (p : Prog A) (w : World) : Prog A * World :=
  match p with
  | Ret a => (Ret a, w)
  | Step a k => let '(x, w') := effect a w in (k x, w')
  | DbTransaction body k =>
      if atomic then let '(x, w') := run body w in (k x, w')
      else
        let '(body', w') := step atomic body w in
        match body' with
        | Ret x => (k x, w')
        | _ => (DbTransaction body' k, w')
        end
  end.


(** Handlers in flight, and a schedule: which handler acts next. *)
Abbreviation Pool := (list (Prog unit)).

Fixpoint exec (atomic : bool) (schedule : list nat) (pool : Pool) (w : World)
    : Pool * World :=
  match schedule with
  | [] => (pool, w)
  | i :: rest =>
      match pool !! i with
      | None => exec atomic rest pool w
      | Some p =>
          let '(p', w') := step atomic p w in
          exec atomic rest (<[i := p']> pool) w'
      end
  end.

(** ** The store contract: Prisma calls *)

Definition transaction_findUnique (id : string) : Awaitable (option Transaction) :=
  mkAwaitable (TransactionFindUnique id) (λ w, (db_transaction w !! id, w)).

(** [db.transaction.create]: rejects on a duplicate id. *)
Definition transaction_create (t : Transaction) : Awaitable (Settled Transaction) :=
  mkAwaitable (TransactionCreate (tx_id t)) (λ w,
    match db_transaction w !! tx_id t with
    | Some _ => (Rejected, w)
    | None => (Fulfilled t, set_transactions (insert (tx_id t) t) w)
    end).

(** [db.transaction.update({ where: { id }, data })]: the row is found by id
    alone and rewritten whatever its status; rejects when there is no row. *)
Definition transaction_update (id : string) (data_status : TransactionStatus)
    (data : Transaction → Transaction) : Awaitable (Settled Transaction) :=
  mkAwaitable (TransactionUpdate id None data_status) (λ w,
    match db_transaction w !! id with
    | Some t => (Fulfilled (data t), set_transactions (insert id (data t)) w)
    | None => (Rejected, w)
    end).

Definition with_status (s : TransactionStatus) (t : Transaction) : Transaction :=
  {| tx_id := tx_id t; tx_amount := tx_amount t; tx_currency := tx_currency t;
     tx_status := s; tx_paymentMethod := tx_paymentMethod t;
     tx_userId := tx_userId t; tx_destination := tx_destination t;
     tx_callbackUrl := tx_callbackUrl t; tx_metadata := tx_metadata t;
     tx_expiresAt := tx_expiresAt t |}.

(** [data: { userId, status: "ACCEPTED", destination }]. *)
Definition accepted_by (userId destination : string) (t : Transaction) : Transaction :=
  {| tx_id := tx_id t; tx_amount := tx_amount t; tx_currency := tx_currency t;
     tx_status := ACCEPTED; tx_paymentMethod := tx_paymentMethod t;
     tx_userId := Some userId; tx_destination := Some destination;
     tx_callbackUrl := tx_callbackUrl t; tx_metadata := tx_metadata t;
     tx_expiresAt := tx_expiresAt t |}.

Definition find_user (telegramId : Z) (us : list User) : option User :=
  snd <$> list_find (λ u, user_telegramId u = telegramId) us.

Definition user_findUnique (telegramId : Z) : Awaitable (option User) :=
  mkAwaitable (UserFindUnique telegramId) (λ w, (find_user telegramId (db_user w), w)).

(** [db.user.findMany({ where: { isAdmin: true, balance: { gte: amount } } })]. *)
Definition eligible (amount : Number) (u : User) : bool :=
  user_isAdmin u && geq (user_balance u) amount.

Definition user_findMany (amount : Number) : Awaitable (list User) :=
  mkAwaitable UserFindMany (λ w, (List.filter (eligible amount) (db_user w), w)).

(** [db.user.create]: [id] and [telegramId] are unique. *)
Definition user_create (u : User) : Awaitable (Settled unit) :=
  mkAwaitable (UserCreate (user_telegramId u)) (λ w,
    if existsb (λ v, bool_decide (user_telegramId v = user_telegramId u)
                     || bool_decide (user_id v = user_id u)) (db_user w)
    then (Rejected, w)
    else (Fulfilled (), set_users (λ us, us ++ [u]) w)).

Definition update_user (telegramId : Z) (data : User → User) (us : list User)
    : list User :=
  (λ u, if bool_decide (user_telegramId u = telegramId) then data u else u) <$> us.

(** [db.user.update({ where: { telegramId }, data })]. *)
Definition user_update (telegramId : Z) (data : User → User) : Awaitable (Settled unit) :=
  mkAwaitable (UserUpdate telegramId) (λ w,
    match find_user telegramId (db_user w) with
    | Some _ => (Fulfilled (), set_users (update_user telegramId data) w)
    | None => (Rejected, w)
    end).

(** [db.screenshot.create]: [transactionId] is unique and, with [userId], a
    foreign key. *)
Definition screenshot_create (s : Screenshot) : Awaitable (Settled unit) :=
  mkAwaitable (ScreenshotCreate (shot_transactionId s)) (λ w,
    match db_screenshot w !! shot_transactionId s,
          db_transaction w !! shot_transactionId s with
    | None, Some _ =>
        if existsb (λ u, bool_decide (user_id u = shot_userId s)) (db_user w)
        then (Fulfilled (), set_screenshots (insert (shot_transactionId s) s) w)
        else (Rejected, w)
    | _, _ => (Rejected, w)
    end).

(** ** The notification channel and the network *)

(** What the outside does to outbound calls: whether a message to a chat is
    delivered, and whether a POST to a callback address goes through. *)
Record Network := mkNetwork {
  delivers : Z → bool;
  callback_ok : string → bool;
}.

(** [ctx.reply(text)]; replies to the operator who just acted are taken to
    go through. *)
Definition reply (chat : Z) (r : Reply) : Awaitable unit :=
  mkAwaitable (TelegramSend chat) (λ w, ((), emit (EvReply chat r) w)).

(** [this.bot.telegram.sendMessage(chat, ...)]: rejects when the chat cannot
    be reached. *)
Definition telegram_sendMessage (net : Network) (chat : Z) (e : Event)
    : Awaitable (Settled unit) :=
  mkAwaitable (TelegramSend chat) (λ w,
    if delivers net chat then (Fulfilled (), emit e w) else (Rejected, w)).

(** [fetch(url, { method: "POST", ... })]. *)
Definition http_post (net : Network) (url : string) (e : Event) : Awaitable (Settled unit) :=
  mkAwaitable (HttpPost url) (λ w,
    if callback_ok net url then (Fulfilled (), emit e w) else (Rejected, w)).

(** A [logger.error] line the properties speak about. *)
Definition log (e : Event) : Awaitable unit :=
  mkAwaitable Local (λ w, ((), emit e w)).

(** ** src/config.ts *)

Record Config := mkConfig {
  MIN_PAYOUT_AMOUNT : Number;
  MAX_PAYOUT_AMOUNT : Number;
  ADMIN_TELEGRAM_ID : Z;
}.

(** ** src/constants/banks.ts *)

Definition BANKS : list string :=
  [ "sberbank"; "tinkoff"; "vtb"; "alfa"; "gazprombank"; "interbank";
    "mts_bank"; "ozon_bank"; "open"; "post_bank"; "psb"; "raiffeisen";
    "rosbank"; "rstb"; "sbp"; "sovkom"; "uralsib";
    "account_number"; "humo_uzs"; "ziraat"; "papara"; "uz_card"; "kapital";
    "garanti"; "enpara"; "kuveyt"; "ininal"; "iban" ].

Definition validateBankId (bankId : string) : bool :=
  bool_decide (toLowerCase bankId ∈ BANKS).

(** ** src/bot/index.ts: the short-id mapping and operator dispatch *)

Definition saveTransactionMapping (shortId fullId : string) : Awaitable unit :=
  mkAwaitable Local (λ w, ((), set_mappings (insert shortId fullId) w)).

Definition getFullTransactionId (shortId : string) : Awaitable (option string) :=
  mkAwaitable Local (λ w, (transactionMappings w !! shortId, w)).

(** [payoutData.transactionId.substring(0, 11)]. *)
Definition shortTxId (transactionId : string) : string := substring0 11 transactionId.

(** [payoutData.destination.slice(-4)]. *)
Definition shortDestination (destination : string) : string := slice_last 4 destination.

Definition userStates_get (from : Z) : Awaitable (option UserState) :=
  mkAwaitable Local (λ w, (userStates w !! from, w)).

Definition userStates_set (from : Z) (st : UserState) : Awaitable unit :=
  mkAwaitable Local (λ w, ((), set_userStates (insert from st) w)).

Section Engine.

Context (config : Config) (net : Network).

(** [sendPayoutRequest]: the mapping is saved after the message went out;
    a failed send is caught and logged. *)
Definition sendPayoutRequest (operatorId : Z) (transactionId destination : string)
    : Prog unit :=
  await result ← telegram_sendMessage net operatorId
      (EvPayoutRequest operatorId transactionId (shortTxId transactionId)
         (shortDestination destination));
  match result with
  | Fulfilled _ =>
      await _ ← saveTransactionMapping (shortTxId transactionId) transactionId;
      Ret ()
  | Rejected =>
      await _ ← log (EvSendFailureLogged operatorId transactionId);
      Ret ()
  end.

(** ** src/api/payout.ts *)

Record CreateBody := mkCreateBody {
  destination : string;
  amount : Number;
  walletId : string;
  expiredTime : Number;
  expiredOfferTime : Number;
  sbp_bank : option string;
  callback_url : string;
}.

(** The [reason] texts of the create response. *)
Inductive Reason :=
  | NoReason            (* "" *)
  | UnsupportedMethod   (* "Неподдерживаемый метод выплаты" *)
  | AmountOutOfRange    (* "Сумма должна быть от MIN до MAX RUB" *)
  | BadTimestamps       (* "Неверные временные метки" *)
  | NoOperators         (* "Нет доступных операторов" *)
  | InternalError.      (* "Внутренняя ошибка сервера" *)

Record Response := mkResponse {
  external_id : string;
  status : Z;
  reason : Reason;
  code : Z;
}.

Definition generateUniqueId (uuid : string) : string := "TX_" +:+ uuid.

Definition validateTimes (expiredTime expiredOfferTime : Number) : bool :=
  lt expiredTime expiredOfferTime && lt (num 0) expiredTime
  && lt (num 0) expiredOfferTime.

Definition validateAmount (amount : Number) : bool :=
  geq amount (MIN_PAYOUT_AMOUNT config) && leq amount (MAX_PAYOUT_AMOUNT config).

(** The callback of the expiry timer.  The update is outside any [try]: when
    it rejects, the callback ends there. *)
Definition expire (clientUniqueId callback_url : string) : Prog unit :=
  await expiredTransaction ← transaction_findUnique clientUniqueId;
  match expiredTransaction with
  | Some t =>
      if bool_decide (tx_status t = PENDING) then
        await updated ← transaction_update clientUniqueId EXPIRED (with_status EXPIRED);
        match updated with
        | Fulfilled _ =>
            if truthy (Some callback_url) then
              await sent ← http_post net callback_url
                  (EvCallback callback_url clientUniqueId 3);
              match sent with
              | Fulfilled _ => Ret ()
              | Rejected => await _ ← log (EvCallbackFailureLogged callback_url); Ret ()
              end
            else Ret ()
        | Rejected => Ret ()
        end
      else Ret ()
  | None => Ret ()
  end.

(** [setTimeout(async () => ..., delay)]: the callback is armed and fires at
    some later time. *)
Definition setTimeout (clientUniqueId callback_url : string) : Awaitable unit :=
  mkAwaitable Local (λ w,
    ((), set_timers (λ ts, ts ++ [(clientUniqueId, callback_url)]) w)).

(** [for (const operator of operators) await bot.sendPayoutRequest(...)]. *)
Fixpoint notifyOperators {A} (operators : list User) (transactionId destination : string)
    (k : Prog A) : Prog A :=
  match operators with
  | [] => k
  | operator :: rest =>
      bind (sendPayoutRequest (user_telegramId operator) transactionId destination)
           (λ _, notifyOperators rest transactionId destination k)
  end.

Definition validationError (r : Reason) : Response :=
  {| external_id := ""; status := 2; reason := r; code := 400 |}.

Definition internalError : Response :=
  {| external_id := ""; status := 2; reason := InternalError; code := 500 |}.

(** The [/payout/create] handler; [uuid] is the value of [randomUUID()]. *)
Definition create (body : CreateBody) (uuid : string) : Prog Response :=
  if negb (validateBankId (walletId body)) then Ret (validationError UnsupportedMethod)
  else if negb (validateAmount (amount body)) then Ret (validationError AmountOutOfRange)
  else if negb (validateTimes (expiredTime body) (expiredOfferTime body))
  then Ret (validationError BadTimestamps)
  else
    let clientUniqueId := generateUniqueId uuid in
    await created ← transaction_create
        {| tx_id := clientUniqueId; tx_amount := amount body; tx_currency := "RUB";
           tx_status := PENDING; tx_paymentMethod := walletId body;
           tx_userId := None; tx_destination := Some (destination body);
           tx_callbackUrl := Some (callback_url body);
           tx_metadata := (sbp_bank body, expiredTime body);
           tx_expiresAt := (expiredOfferTime body * num 1000)%Qc |};
    match created with
    | Rejected => Ret internalError
    | Fulfilled transaction =>
        await operators ← user_findMany (amount body);
        if Nat.eqb (length operators) 0 then
          await failed ← transaction_update clientUniqueId FAILED (with_status FAILED);
          match failed with
          | Fulfilled _ =>
              Ret {| external_id := clientUniqueId; status := 2;
                     reason := NoOperators; code := 503 |}
          | Rejected => Ret internalError
          end
        else
          notifyOperators operators (tx_id transaction) (destination body)
            (await _ ← setTimeout clientUniqueId (callback_url body);
             Ret {| external_id := tx_id transaction; status := 1;
                    reason := NoReason; code := 0 |})
    end.

(** ** src/bot/index.ts: the handlers *)

(** [ctx.from.id] and [ctx.state]. *)
Record Ctx := mkCtx {
  from : Z;
  isAdmin : bool;
  isOperator : bool;
}.

(** How the [db.$transaction] block of [handleAcceptPayout] ends: with the
    updated row, with [Error("Transaction is no longer available")], or with
    another error. *)
Inductive AcceptOutcome :=
  | Updated (t : Transaction)
  | NoLongerAvailable
  | OtherError.

Definition awaitingScreenshotFor (transactionId : string) : UserState :=
  {| awaitingBalance := false; awaitingOperatorId := false;
     awaitingScreenshot := true; currentTransactionId := Some transactionId |}.

Definition handleAcceptPayout (from : Z) (transactionId destination : string)
    : Prog unit :=
  await transaction ← transaction_findUnique transactionId;
  match transaction with
  | None => await _ ← reply from MsgPayoutNotFound; Ret ()
  | Some t =>
      if negb (bool_decide (tx_status t = PENDING))
      then await _ ← reply from MsgNotActive; Ret ()
      else
        await user ← user_findUnique from;
        match user with
        | None => await _ ← reply from MsgAcceptUserNotFound; Ret ()
        | Some user =>
            DbTransaction
              (await currentTransaction ← transaction_findUnique transactionId;
               match currentTransaction with
               | Some c =>
                   if bool_decide (tx_status c = PENDING) then
                     await updated ← transaction_update transactionId ACCEPTED
                         (accepted_by (user_id user) destination);
                     match updated with
                     | Fulfilled u => Ret (Updated u)
                     | Rejected => Ret OtherError
                     end
                   else Ret NoLongerAvailable
               | None => Ret NoLongerAvailable
               end)
              (λ outcome,
                 match outcome with
                 | Updated _ =>
                     await _ ← userStates_set from (awaitingScreenshotFor transactionId);
                     await _ ← reply from (MsgAccepted destination);
                     Ret ()
                 | NoLongerAvailable =>
                     await _ ← reply from MsgNoLongerAvailable; Ret ()
                 | OtherError =>
                     await _ ← reply from MsgAcceptError; Ret ()
                 end)
        end
  end.

(** [this.bot.action(/ap:([^:]+):(\d+)/, ...)]. *)
Definition ap (from : Z) (shortId : string) : Prog unit :=
  await fullTransactionId ← getFullTransactionId shortId;
  if negb (truthy fullTransactionId)
  then await _ ← reply from MsgMappingNotFound; Ret ()
  else
    let fullId := default "" fullTransactionId in
    await transaction ← transaction_findUnique fullId;
    match transaction with
    | None => await _ ← reply from MsgTransactionNotFound; Ret ()
    | Some t => handleAcceptPayout from fullId (default "" (tx_destination t))
    end.

(** What Telegram, the file download and the disk do to one upload: the
    result of [ctx.telegram.getFile] (its [file_path]), whether
    [fetch(fileUrl)] resolves with [response.ok], whether a file written
    directly into the upload directory is stored in full, and the text of
    [Date.now()]. *)
Record Upload := mkUpload {
  up_file : Settled (option string);
  up_download_ok : bool;
  up_write_ok : bool;
  up_now : string;
}.

Definition telegram_getFile (up : Upload) : Awaitable (Settled (option string)) :=
  mkAwaitable TelegramGetFile (λ w, (up_file up, w)).

Definition download (up : Upload) : Awaitable bool :=
  mkAwaitable Download (λ w, (up_download_ok up, w)).

Fixpoint has_slash (s : string) : bool :=
  match s with
  | EmptyString => false
  | String c r => bool_decide (c = "/"%char) || has_slash r
  end.

(** [createWriteStream(join(config.UPLOAD_DIR, fileName))] and
    [pipeline(response.body, fileStream)].  The upload directory is the only
    directory the code creates: a name with a slash in it lies in a
    directory below it that does not exist, and the write rejects. *)
Definition writeFile (up : Upload) (fileName : string) : Awaitable bool :=
  mkAwaitable (WriteFile fileName)
    (λ w, (up_write_ok up && negb (has_slash fileName), w)).

(** [path.split(".").pop()]. *)
Fixpoint after_last_dot (s acc : string) : string :=
  match s with
  | EmptyString => acc
  | String c r =>
      if bool_decide (c = "."%char) then after_last_dot r ""
      else after_last_dot r (acc +:+ String c "")
  end.

(** [file.file_path.split(".").pop() || "jpg"]. *)
Definition fileExt (file_path : string) : string :=
  let ext := after_last_dot file_path "" in
  if truthy (Some ext) then ext else "jpg".

(** The [catch] of [handleScreenshotUpload]. *)
Definition uploadFailed (from : Z) : Prog unit :=
  await _ ← reply from MsgUploadError; Ret ().

Definition handleScreenshotUpload (from : Z) (up : Upload) : Prog unit :=
  await userState ← userStates_get from;
  match userState with
  | None => Ret ()
  | Some userState =>
      if negb (awaitingScreenshot userState)
         || negb (truthy (currentTransactionId userState))
      then Ret ()
      else
        let transactionId := default "" (currentTransactionId userState) in
        await file ← telegram_getFile up;
        match file with
        | Rejected => uploadFailed from
        | Fulfilled file_path =>
            if negb (truthy file_path)
            then await _ ← reply from MsgFileUnavailable; Ret ()
            else
              let fileName :=
                up_now up +:+ "_" +:+ transactionId +:+ "."
                +:+ fileExt (default "" file_path) in
              await ok ← download up;
              if negb ok then uploadFailed from
              else
                await written ← writeFile up fileName;
                if negb written then uploadFailed from
                else
                  await user ← user_findUnique from;
                  match user with
                  | None => await _ ← reply from MsgUploadUserNotFound; Ret ()
                  | Some user =>
                      await created ← screenshot_create
                          {| shot_path := fileName;
                             shot_transactionId := transactionId;
                             shot_userId := user_id user |};
                      match created with
                      | Rejected => uploadFailed from
                      | Fulfilled _ =>
                          await updated ← transaction_update transactionId COMPLETED
                              (with_status COMPLETED);
                          match updated with
                          | Rejected => uploadFailed from
                          | Fulfilled _ =>
                              await _ ← userStates_set from idleState;
                              await _ ← reply from MsgScreenshotUploaded;
                              if bool_decide (ADMIN_TELEGRAM_ID config ≠ 0%Z) then
                                await sent ← telegram_sendMessage net
                                    (ADMIN_TELEGRAM_ID config)
                                    (EvAdminNotice transactionId);
                                match sent with
                                | Fulfilled _ => Ret ()
                                | Rejected => uploadFailed from
                                end
                              else Ret ()
                          end
                      end
                  end
        end
  end.

Definition showMainMenu (from : Z) : Prog unit :=
  await _ ← reply from MsgMainMenu; Ret ().

(** [this.bot.action("cancel_action", ...)].  The update is outside any
    [try]: when it rejects, the handler ends there. *)
Definition cancel_action (from : Z) : Prog unit :=
  await userState ← userStates_get from;
  let finish :=
    await _ ← userStates_set from idleState;
    await _ ← reply from MsgActionCancelled;
    showMainMenu from in
  if truthy (userState ≫= currentTransactionId) then
    await cancelled ← transaction_update
        (default "" (userState ≫= currentTransactionId)) CANCELLED
        (with_status CANCELLED);
    match cancelled with
    | Fulfilled _ => finish
    | Rejected => Ret ()
    end
  else finish.

(** [this.bot.action("set_balance", ...)]. *)
Definition set_balance (ctx : Ctx) : Prog unit :=
  if negb (isOperator ctx) then Ret ()
  else
    await _ ← userStates_set (from ctx)
        {| awaitingBalance := true; awaitingOperatorId := false;
           awaitingScreenshot := false; currentTransactionId := None |};
    await _ ← reply (from ctx) MsgAskBalance;
    Ret ().

(** [this.bot.action("add_operator", ...)]. *)
Definition add_operator (ctx : Ctx) : Prog unit :=
  if negb (isAdmin ctx) then Ret ()
  else
    await _ ← userStates_set (from ctx)
        {| awaitingBalance := false; awaitingOperatorId := true;
           awaitingScreenshot := false; currentTransactionId := None |};
    await _ ← reply (from ctx) MsgAskOperatorId;
    Ret ().

(** A text message as the two parsers read it: [parseFloat(text)] ([None]
    for NaN) and [BigInt(text.trim())] ([None] when it throws). *)
Record Text := mkText {
  text_float : option Number;
  text_bigint : option Z;
}.

Definition handleBalanceInput (from : Z) (text : Text) : Prog unit :=
  match text_float text with
  | None => await _ ← reply from MsgBadAmount; Ret ()
  | Some amount =>
      if lt amount (num 0) then await _ ← reply from MsgNegativeAmount; Ret ()
      else
        await updated ← user_update from (λ u,
            {| user_id := user_id u; user_telegramId := user_telegramId u;
               user_username := user_username u; user_isAdmin := user_isAdmin u;
               user_balance := amount; user_maxBalance := amount |});
        match updated with
        | Fulfilled _ =>
            await _ ← userStates_set from idleState;
            await _ ← reply from MsgBalanceSet;
            showMainMenu from
        | Rejected => await _ ← reply from MsgBalanceError; Ret ()
        end
  end.

(** [uuid] is the [@default(uuid())] of a created row. *)
Definition handleOperatorInput (from : Z) (text : Text) (uuid : string) : Prog unit :=
  match text_bigint text with
  | None => await _ ← reply from MsgOperatorError; Ret ()
  | Some operatorId =>
      await existingUser ← user_findUnique operatorId;
      await saved ←
        match existingUser with
        | Some _ =>
            user_update operatorId (λ u,
              {| user_id := user_id u; user_telegramId := user_telegramId u;
                 user_username := user_username u; user_isAdmin := true;
                 user_balance := user_balance u;
                 user_maxBalance := user_maxBalance u |})
        | None =>
            user_create
              {| user_id := uuid; user_telegramId := operatorId;
                 user_username := None; user_isAdmin := true;
                 user_balance := num 0; user_maxBalance := num 0 |}
        end;
      match saved with
      | Fulfilled _ =>
          await _ ← userStates_set from idleState;
          await _ ← reply from MsgOperatorAdded;
          showMainMenu from
      | Rejected => await _ ← reply from MsgOperatorError; Ret ()
      end
  end.

Definition handleMessage (from : Z) (text : Text) (uuid : string) : Prog unit :=
  await userState ← userStates_get from;
  match userState with
  | None => Ret ()
  | Some userState =>
      if awaitingBalance userState then handleBalanceInput from text
      else if awaitingOperatorId userState then handleOperatorInput from text uuid
      else Ret ()
  end.

(** An update arriving at the bot. *)
Inductive Update :=
  | ApButton (shortId : string)
  | AcceptPayoutButton (transactionId destination : string)
  | PhotoOrDocument (up : Upload)
  | TextMessage (text : Text)
  | CancelButton
  | SetBalanceButton
  | AddOperatorButton.

Definition dispatch (ctx : Ctx) (uuid : string) (u : Update) : Prog unit :=
  match u with
  | ApButton shortId => ap (from ctx) shortId
  | AcceptPayoutButton transactionId destination =>
      handleAcceptPayout (from ctx) transactionId destination
  | PhotoOrDocument up => handleScreenshotUpload (from ctx) up
  | TextMessage text => handleMessage (from ctx) text uuid
  | CancelButton => cancel_action (from ctx)
  | SetBalanceButton => set_balance ctx
  | AddOperatorButton => add_operator ctx
  end.

(** [setupMiddleware]: every update passes through it; an unknown sender
    other than the administrator is registered first ([uuid1] is the new
    row's id).  When the registration rejects, the handler is not run. *)
Definition middleware (sender : Z) (username : option string) (uuid1 : string)
    (next : Ctx → Prog unit) : Prog unit :=
  await user ← user_findUnique sender;
  let ctx :=
    {| from := sender;
       isAdmin := bool_decide (sender = ADMIN_TELEGRAM_ID config);
       isOperator := from_option user_isAdmin false user |} in
  match user with
  | None =>
      if negb (bool_decide (sender = ADMIN_TELEGRAM_ID config)) then
        await created ← user_create
            {| user_id := uuid1; user_telegramId := sender;
               user_username := username; user_isAdmin := false;
               user_balance := num 0; user_maxBalance := num 0 |};
        match created with
        | Fulfilled _ => next ctx
        | Rejected => Ret ()
        end
      else next ctx
  | Some _ => next ctx
  end.

(** Everything that can happen to the engine: a creation request, an armed
    timer firing, an update at the bot. *)
Inductive Action :=
  | CreateRequest (body : CreateBody) (uuid : string)
  | TimerFires (clientUniqueId callback_url : string)
  | BotUpdate (sender : Z) (username : option string) (uuid1 uuid2 : string) (u : Update).

Definition perform (a : Action) : Prog unit :=
  match a with
  | CreateRequest body uuid => bind (create body uuid) (λ _, Ret ())
  | TimerFires clientUniqueId callback_url => expire clientUniqueId callback_url
  | BotUpdate sender username uuid1 uuid2 u =>
      middleware sender username uuid1 (λ ctx, dispatch ctx uuid2 u)
  end.

(** Handlers run one after another, each from start to end. *)
Definition serial (actions : list Action) (w : World) : World :=
  foldl (λ w a, snd (run (perform a) w)) w actions.

End Engine.

(** ** src/service/rate.ts *)

(** A rate: an IEEE 754 binary64 value. *)
Abbreviation Double := spec_float.

(** The double of an integer literal. *)
Definition double (n : Z) : Double := binary_normalize 53 1024 n 0 false.

(** [a + b], [a - b] and [a / b] on doubles. *)
Definition dadd (a b : Double) : Double := SFadd 53 1024 a b.
Definition dsub (a b : Double) : Double := SFsub 53 1024 a b.
Definition ddiv (a b : Double) : Double := SFdiv 53 1024 a b.

(** [x > 0]. *)
Definition positive (x : Double) : bool := SFltb (S754_zero false) x.

(** Modelled from the spec: [@/utils/cache] is not among the sources; the
    specification describes it as a short-lived in-memory cache whose entries
    carry an expiry.  An entry is the value and the time it expires at. *)
Abbreviation Cache := (gmap string (Double * Number)).

Definition cache_set (key : string) (value : Double) (ttl now : Number) (c : Cache)
    : Cache :=
  <[key := (value, (now + ttl)%Qc)]> c.

Inductive RateLog :=
  | RateUpdated (rate : Double)   (* logger.info("Updated exchange rate ...") *)
  | RateUpdateFailed.             (* logger.error("Failed to update exchange rates:") *)

(** The [ExchangeRate] table keyed by its unique [(from, to, source)], each
    row holding [rate] and [createdAt]; the cache; the log. *)
Record RateWorld := mkRateWorld {
  db_exchangeRate : gmap (string * string * string) (Double * Number);
  cache : Cache;
  rate_log : list RateLog;
}.

(** The comparator [(a, b) => a - b]. *)
Definition compareFn (a b : Double) : Double := dsub a b.

(** [comparefn(a, b) > 0]: the sort puts [b] before [a].  A comparator
    value that is NaN counts as zero. *)
Definition after (a b : Double) : bool := positive (compareFn a b).

(** [rates.sort(comparefn)].  The sort of JavaScript is stable, and what it
    produces is fixed by that whenever the comparator is a consistent order;
    it is modelled as the stable insertion sort.  A comparator that is not
    consistent (a NaN among three or more samples) leaves the order to the
    implementation. *)
Fixpoint insert_sorted (x : Double) (sorted : list Double) : list Double :=
  match sorted with
  | [] => [x]
  | y :: rest => if after y x then x :: y :: rest else y :: insert_sorted x rest
  end.

Definition sortAscending (rates : list Double) : list Double :=
  foldl (λ sorted x, insert_sorted x sorted) [] rates.

(** [rates[i]]. *)
Definition at_index (rates : list Double) (i : Z) : option Double :=
  if bool_decide (i < 0)%Z then None else rates !! Z.to_nat i.

(** [calculateAccurateRate]; [None] stands for a read out of range, which
    no non-empty list causes. *)
Definition calculateAccurateRate (rates : list Double) : option Double :=
  let rates := sortAscending rates in
  let mid := (Z.of_nat (length rates) / 2)%Z in
  if negb (bool_decide ((Z.of_nat (length rates) mod 2)%Z = 0%Z))
  then at_index rates mid
  else
    a ← at_index rates (mid - 1)%Z;
    b ← at_index rates mid;
    Some (ddiv (dadd a b) (double 2)).

(** The fulfilled results of [Promise.allSettled], in order. *)
Definition successfulRates (results : list (Settled Double)) : list Double :=
  omap (λ r, match r with Fulfilled v => Some v | Rejected => None end) results.

(** [db.exchangeRate.upsert]: the row of the key is overwritten or created. *)
Definition exchangeRate_upsert (key : string * string * string) (rate : Double)
    (now : Number) (w : RateWorld) : RateWorld :=
  {| db_exchangeRate := <[key := (rate, now)]> (db_exchangeRate w);
     cache := cache w; rate_log := rate_log w |}.

Definition rate_failed (w : RateWorld) : RateWorld :=
  {| db_exchangeRate := db_exchangeRate w; cache := cache w;
     rate_log := rate_log w ++ [RateUpdateFailed] |}.

(** [RateService.updateRates]; [results] is what the fetchers settled to and
    [now] the time of the cycle. *)
Definition updateRates (now : Number) (results : list (Settled Double))
    (w : RateWorld) : RateWorld :=
  let successfulRates := successfulRates results in
  if Nat.eqb (length successfulRates) 0 then rate_failed w
  else
    match calculateAccurateRate successfulRates with
    | Some accurateRate =>
        let w := exchangeRate_upsert ("USDT", "RUB", "COMBINED") accurateRate now w in
        {| db_exchangeRate := db_exchangeRate w;
           cache := cache_set "rate:RUB:USDT" accurateRate (num 300000) now (cache w);
           rate_log := rate_log w ++ [RateUpdated accurateRate] |}
    | None => rate_failed w
    end.
(** ** src/constants/banks.ts: display names *)

(** [BANK_NAMES], the own properties of the object in source order. *)
Definition BANK_NAMES : list (string * string) :=
  [ ("sberbank", "Сбербанк"); ("tinkoff", "Тинькофф"); ("vtb", "ВТБ");
    ("alfa", "Альфабанк"); ("gazprombank", "Газпромбанк");
    ("interbank", "Межбанк"); ("mts_bank", "МТС-Банк");
    ("ozon_bank", "Озонбанк"); ("open", "Открытие");
    ("post_bank", "Почта банк"); ("psb", "Промсвязьбанк");
    ("raiffeisen", "Райффайзен"); ("rosbank", "Росбанк");
    ("rstb", "Россельхозбанк"); ("sbp", "СБП"); ("sovkom", "Совкомбанк");
    ("uralsib", "Уралсиб");
    ("account_number", "Номер счета"); ("humo_uzs", "Humo UZS");
    ("ziraat", "Ziraat Bank"); ("papara", "Papara"); ("uz_card", "UZ Card");
    ("kapital", "Kapital Bank"); ("garanti", "Garanti"); ("enpara", "Enpara");
    ("kuveyt", "Kuveyt"); ("ininal", "Ininal"); ("iban", "iBan") ].

(** [obj[key]] on the own properties of an object literal. *)
Fixpoint property (key : string) (obj : list (string * string)) : option string :=
  match obj with
  | [] => None
  | (k, v) :: rest => if bool_decide (k = key) then Some v else property key rest
  end.

(** [getBankName]: [BANK_NAMES[bankId.toLowerCase()] || bankId].  Keys that
    only [Object.prototype] answers are outside the model. *)
Definition getBankName (bankId : string) : string :=
  let normalizedBankId := toLowerCase bankId in
  match property normalizedBankId BANK_NAMES with
  | Some name => if truthy (Some name) then name else bankId
  | None => bankId
  end.

(** ** Regular expressions of the sources *)

(** The longest prefix of [s] whose characters satisfy [p], and what
    follows it. *)
Fixpoint span (p : ascii → bool) (s : string) : string * string :=
  match s with
  | EmptyString => ("", "")
  | String c r =>
      if p c then let '(run, rest) := span p r in (String c run, rest)
      else ("", s)
  end.

Definition between (lo hi : nat) (c : ascii) : bool :=
  Nat.leb lo (nat_of_ascii c) && Nat.leb (nat_of_ascii c) hi.

(** [\d]. *)
Definition is_digit (c : ascii) : bool := between 48 57 c.

(** [[a-f0-9-]]. *)
Definition hex_or_dash (c : ascii) : bool :=
  between 97 102 c || between 48 57 c || bool_decide (c = "-"%char).

(** [[^:]]. *)
Definition not_colon (c : ascii) : bool := negb (bool_decide (c = ":"%char)).

(** [filename.match(/TX_[a-f0-9-]+/)]: the leftmost ["TX_"] that is followed
    by at least one character of the class, with the longest run of them. *)
Fixpoint match_tx_id (s : string) : option string :=
  match s with
  | EmptyString => None
  | String c r =>
      match s with
      | String "T" (String "X" (String "_" rest)) =>
          match fst (span hex_or_dash rest) with
          | EmptyString => match_tx_id r
          | run => Some ("TX_" +:+ run)
          end
      | _ => match_tx_id r
      end
  end.

(** What follows a leading ["ap:"]. *)
Definition strip_ap (s : string) : option string :=
  match s with
  | String c1 (String c2 (String c3 rest)) =>
      if bool_decide (c1 = "a"%char) && bool_decide (c2 = "p"%char)
         && bool_decide (c3 = ":"%char)
      then Some rest else None
  | _ => None
  end.

(** The two groups [([^:]+):(\d+)] read right after a leading ["ap:"]: the
    first group is greedy and must stop at a colon, so it is the longest run
    without colon, and it is followed by a colon and a non-empty run of
    digits. *)
Definition ap_groups (rest : string) : option (string * string) :=
  match span not_colon rest with
  | (String g gs, String c rest2) =>
      if bool_decide (c = ":"%char) then
        match fst (span is_digit rest2) with
        | EmptyString => None
        | digits => Some (String g gs, digits)
        end
      else None
  | _ => None
  end.

(** [/ap:([^:]+):(\d+)/.exec(data)]: the groups at the leftmost position
    where the expression matches. *)
Fixpoint match_ap (s : string) : option (string * string) :=
  match s with
  | EmptyString => None
  | String c r =>
      match strip_ap s with
      | Some rest =>
          match ap_groups rest with
          | Some groups => Some groups
          | None => match_ap r
          end
      | None => match_ap r
      end
  end.

(** The callback data of the accept button of [sendPayoutRequest]:
    [`ap:${shortTxId}:${shortDestination}`]. *)
Definition accept_button_data (transactionId destination : string) : string :=
  "ap:" +:+ shortTxId transactionId +:+ ":" +:+ shortDestination destination.

(** ** src/api/payout.ts: the status query *)

(** The [reason] of a status response: empty, the name of the status, or
    "Транзакция не найдена". *)
Inductive StatusReason :=
  | ReasonEmpty
  | ReasonStatus (s : TransactionStatus)
  | ReasonNotFound.

Record StatusResponse := mkStatusResponse {
  sr_clientUniqueId : string;
  sr_status : Z;
  sr_amount : Number;
  sr_amountPaid : Number;
  sr_receipt : string;
  sr_reason : StatusReason;
  sr_code : Z;
  sr_screenshot : string;
}.

(** [{ PENDING: 1, ACCEPTED: 1, COMPLETED: 2, FAILED: 3, EXPIRED: 3,
       CANCELLED: 3 }[transaction.status] || 3]. *)
Definition coarse_status (s : TransactionStatus) : Z :=
  match s with
  | PENDING | ACCEPTED => 1
  | COMPLETED => 2
  | FAILED | EXPIRED | CANCELLED => 3
  end.

(** The [/payout/status] handler.  Its one call is the read
    [db.transaction.findUnique({ where: { id }, include: { screenshot: true } })],
    so it is a function of the world. *)
Definition payoutStatus (clientUniqueId : string) (w : World) : StatusResponse :=
  match db_transaction w !! clientUniqueId with
  | None =>
      {| sr_clientUniqueId := clientUniqueId; sr_status := 3;
         sr_amount := num 0; sr_amountPaid := num 0; sr_receipt := "";
         sr_reason := ReasonNotFound; sr_code := 404; sr_screenshot := "" |}
  | Some transaction =>
      {| sr_clientUniqueId := tx_id transaction;
         sr_status := coarse_status (tx_status transaction);
         sr_amount := tx_amount transaction;
         sr_amountPaid :=
           if bool_decide (tx_status transaction = COMPLETED)
           then tx_amount transaction else num 0;
         sr_receipt := "";
         sr_reason :=
           if bool_decide (tx_status transaction = COMPLETED)
           then ReasonEmpty else ReasonStatus (tx_status transaction);
         sr_code := 0;
         sr_screenshot :=
           from_option shot_path "" (db_screenshot w !! clientUniqueId) |}
  end.

(** ** src/api/payout.ts: serving a receipt *)

Inductive ScreenshotError :=
  | ScreenshotNotFound         (* "Screenshot not found", 404 *)
  | InvalidFilenameFormat      (* "Invalid filename format", 400 *)
  | ScreenshotRecordNotFound.  (* "Screenshot record not found", 404 *)

Inductive ScreenshotResponse :=
  | ServeFile (filename contentType : string)
  | ScreenshotFailure (e : ScreenshotError) (code : Z).

(** [mimeTypes], the own properties of the object. *)
Definition mimeTypes : list (string * string) :=
  [ ("jpg", "image/jpeg"); ("jpeg", "image/jpeg"); ("png", "image/png");
    ("webp", "image/webp") ].

(** [mimeTypes[fileExt || ""] || "application/octet-stream"] with
    [fileExt = filename.split(".").pop()?.toLowerCase()]. *)
Definition contentTypeOf (filename : string) : string :=
  let fileExt := toLowerCase (after_last_dot filename "") in
  default "application/octet-stream" (property fileExt mimeTypes).

(** [db.screenshot.findFirst({ where: { path, transaction: { id } } })]:
    the receipt of that transaction, when its path is the one asked for. *)
Definition screenshot_findFirst (path transactionId : string) (w : World)
    : option Screenshot :=
  match db_screenshot w !! transactionId with
  | Some s => if bool_decide (shot_path s = path) then Some s else None
  | None => None
  end.

(** The [/payout/screenshot/:filename] handler; [on_disk] is
    [existsSync(join(config.UPLOAD_DIR, filename))].  Its one call is a
    read, so it is a function of the world. *)
Definition payoutScreenshot (on_disk : string → bool) (filename : string)
    (w : World) : ScreenshotResponse :=
  if negb (on_disk filename) then ScreenshotFailure ScreenshotNotFound 404
  else
    match match_tx_id filename with
    | None => ScreenshotFailure InvalidFilenameFormat 400
    | Some transactionId =>
        match screenshot_findFirst filename transactionId w with
        | None => ScreenshotFailure ScreenshotRecordNotFound 404
        | Some _ => ServeFile filename (contentTypeOf filename)
        end
    end.

(** * Specification-level definitions *)

(** ** The median in the words of the specification *)

(** Of the samples sorted ascending: the middle one for an odd count, the
    mean of the two middle ones for an even count, the mean being taken as
    the code takes it, in double arithmetic. *)
Definition median_of_sorted (sorted : list Double) : option Double :=
  let n := length sorted in
  if Nat.odd n then sorted !! (n / 2)%nat
  else
    a ← sorted !! (n / 2 - 1)%nat;
    b ← sorted !! (n / 2)%nat;
    Some (ddiv (dadd a b) (double 2)).

(** [a] may stand before [b] in the order of the comparator: [a - b] is not
    positive. *)
Definition before (a b : Double) : Prop := after a b = false.

(** The exact value of a finite double. *)
Definition exact (x : Double) : option Q :=
  match x with
  | S754_zero _ => Some 0%Q
  | S754_finite s m e =>
      Some ((if s then -1 else 1) * inject_Z (Z.pos m) * Qpower 2 e)%Q
  | S754_infinity _ | S754_nan => None
  end.

(** The exact mean of two rationals. *)
Definition exact_mean (a b : Q) : Q := ((a + b) / 2)%Q.

(** 0.1, 0.2, 0.15000000000000002 and 1e308 as doubles. *)
Definition d0_1 : Double := S754_finite false 7205759403792794 (-56).
Definition d0_2 : Double := S754_finite false 7205759403792794 (-55).
Definition d0_15000000000000002 : Double := S754_finite false 5404319552844596 (-55).
Definition d1e308 : Double := S754_finite false 5010420900022432 971.

(** ** Sequences of dispatches *)

(** A dispatch: the operator notified, the transaction, its destination. *)
Definition Dispatch : Type := Z * string * string.

Definition dispatch_one (net : Network) (w : World) (d : Dispatch) : World :=
  snd (run (sendPayoutRequest net d.1.1 d.1.2 d.2) w).

(** The world after a sequence of dispatches, oldest first. *)
Definition dispatch_all (net : Network) (ds : list Dispatch) (w : World) : World :=
  foldl (dispatch_one net) w ds.

(** In the words of the claim: the full id of the most recently dispatched
    transaction whose short id is [s]. *)
Definition last_dispatched (s : string) (ds : list Dispatch) : option string :=
  last (omap (λ d : Dispatch,
                if bool_decide (shortTxId d.1.2 = s) then Some d.1.2 else None) ds).

(** As the code has it: the full id of the most recent dispatch with short
    id [s] whose message went out to its operator. *)
Definition last_delivered (net : Network) (s : string) (ds : list Dispatch)
    : option string :=
  last (omap (λ d : Dispatch,
                if delivers net d.1.1 && bool_decide (shortTxId d.1.2 = s)
                then Some d.1.2 else None) ds).

(** What [getFullTransactionId] returns in a world. *)
Definition resolve (s : string) (w : World) : option string :=
  fst (effect (getFullTransactionId s) w).

(** Messages to operator 8 are lost, all others go out. *)
Definition operator8_unreachable : Network :=
  {| delivers := λ chat, negb (bool_decide (chat = 8%Z)); callback_ok := λ _, true |}.

(** What one operator's notification leaves in the outbox. *)
Definition dispatch_events (net : Network) (transactionId destination : string)
    (operator : User) : list Event :=
  if delivers net (user_telegramId operator)
  then [EvPayoutRequest (user_telegramId operator) transactionId
          (shortTxId transactionId) (shortDestination destination)]
  else [EvSendFailureLogged (user_telegramId operator) transactionId].

(** The world after the notification loop of [create]. *)
Definition notified (net : Network) (transactionId destination : string)
    (operators : list User) (w : World) : World :=
  foldl (λ w operator,
           snd (run (sendPayoutRequest net (user_telegramId operator)
                       transactionId destination) w)) w operators.

(** ** Reading the outbox *)

Definition is_callback (e : Event) : bool :=
  match e with
  | EvCallback _ _ _ => true
  | _ => false
  end.

(** The callback POSTs sent so far. *)
Definition callbacks (w : World) : list Event := List.filter is_callback (outbox w).

(** The replies sent so far, with the chat they went to. *)
Definition replies (w : World) : list (Z * Reply) :=
  omap (λ e, match e with EvReply chat r => Some (chat, r) | _ => None end) (outbox w).

Definition status_of (w : World) (id : string) : option TransactionStatus :=
  tx_status <$> db_transaction w !! id.

Definition operator_of (w : World) (id : string) : option string :=
  db_transaction w !! id ≫= tx_userId.

(** ** Example data *)

Definition everything_delivered : Network :=
  {| delivers := λ _, true; callback_ok := λ _, true |}.

Definition config0 : Config :=
  {| MIN_PAYOUT_AMOUNT := num 100; MAX_PAYOUT_AMOUNT := num 1000000;
     ADMIN_TELEGRAM_ID := 1 |}.

Definition operator1 : User :=
  {| user_id := "u-1"; user_telegramId := 7; user_username := Some "op1";
     user_isAdmin := true; user_balance := num 5000; user_maxBalance := num 5000 |}.

Definition operator2 : User :=
  {| user_id := "u-2"; user_telegramId := 8; user_username := Some "op2";
     user_isAdmin := true; user_balance := num 5000; user_maxBalance := num 5000 |}.

(** Two operators on record, nothing else. *)
Definition world0 : World :=
  {| db_transaction := ∅; db_user := [operator1; operator2]; db_screenshot := ∅;
     userStates := ∅; transactionMappings := ∅; timers := []; outbox := [] |}.

Definition body500 : CreateBody :=
  {| destination := "4276123456789012"; amount := num 500; walletId := "sberbank";
     expiredTime := num 1678901234; expiredOfferTime := num 1678901834;
     sbp_bank := None; callback_url := "https://api.example.com/callback" |}.

Definition body50 : CreateBody :=
  {| destination := "4276123456789012"; amount := num 50; walletId := "sberbank";
     expiredTime := num 1678901234; expiredOfferTime := num 1678901834;
     sbp_bank := None; callback_url := "https://api.example.com/callback" |}.

Definition body9000 : CreateBody :=
  {| destination := "4276123456789012"; amount := num 9000; walletId := "sberbank";
     expiredTime := num 1678901234; expiredOfferTime := num 1678901834;
     sbp_bank := None; callback_url := "https://api.example.com/callback" |}.

Definition uuidA : string := "550e8400-e29b-41d4-a716-446655440000".
Definition txA : string := "TX_550e8400-e29b-41d4-a716-446655440000".

Definition dispatches_example : list Dispatch :=
  [ (7%Z, "TX_aaaaaaaa-1111", "4276123456789012");
    (8%Z, "TX_aaaaaaaa-2222", "4276123456780000");
    (7%Z, "TX_bbbbbbbb-3333", "4276123456781111") ].

Definition rates_before : RateWorld :=
  {| db_exchangeRate := {[ ("USDT", "RUB", "COMBINED") := (double 90, num 1) ]};
     cache := {[ "rate:RUB:USDT" := (double 90, num 300001) ]};
     rate_log := [] |}.

Definition photo_ok : Upload :=
  {| up_file := Fulfilled (Some "photos/file_1.jpg"); up_download_ok := true;
     up_write_ok := true; up_now := "1730449671857" |}.

(** ** Scenarios *)

(** The request for 500 is created and dispatched to both operators. *)
Definition world_pending : World :=
  serial config0 everything_delivered [CreateRequest body500 uuidA] world0.

(** Operator 7 presses the accept button. *)
Definition world_accepted : World :=
  serial config0 everything_delivered
    [BotUpdate 7 (Some "op1") "u-x" "u-y" (ApButton "TX_550e8400")] world_pending.

(** Operator 7 sends the photo of the receipt. *)
Definition world_completed : World :=
  serial config0 everything_delivered
    [BotUpdate 7 (Some "op1") "u-x" "u-y" (PhotoOrDocument photo_ok)] world_accepted.

(** No operator can cover 9000: the transaction fails at creation. *)
Definition world_failed : World :=
  serial config0 everything_delivered [CreateRequest body9000 uuidA] world0.

(** The timer of the pending transaction fires. *)
Definition world_expired : World :=
  serial config0 everything_delivered
    [TimerFires txA "https://api.example.com/callback"] world_pending.

(** The operator's in-memory state says a receipt for [id] is awaited. *)
Definition awaits (w : World) (sender : Z) (id : string) : Prop :=
  ∃ st, userStates w !! sender = Some st
      ∧ awaitingScreenshot st = true
      ∧ currentTransactionId st = Some id
      ∧ id ≠ "".

(** The file name under which a receipt is stored. *)
Definition receipt_name (up : Upload) (id path : string) : string :=
  up_now up +:+ "_" +:+ id +:+ "." +:+ fileExt path.

(** ** Bookkeeping between operator states and rows *)

(** Every transaction an operator's state points at is ACCEPTED, and no two
    operators' states point at the same transaction.  This holds when the
    process starts (no state at all) and, as shown below, after every
    handler that ran from start to end. *)
Definition consistent (w : World) : Prop :=
  (∀ op st id, userStates w !! op = Some st → currentTransactionId st = Some id →
     status_of w id = Some ACCEPTED)
  ∧ (∀ op1 op2 st1 st2 id,
       userStates w !! op1 = Some st1 → userStates w !! op2 = Some st2 →
       currentTransactionId st1 = Some id → currentTransactionId st2 = Some id →
       op1 = op2).

(** What a handler can do to the transaction table and the operator states,
    one write at a time. *)
Inductive core_step (w w' : World) : Prop :=
  | core_same :
      db_transaction w' = db_transaction w → userStates w' = userStates w →
      core_step w w'
  | core_mode (op : Z) (st : UserState) :
      currentTransactionId st = None →
      db_transaction w' = db_transaction w →
      userStates w' = <[op := st]> (userStates w) →
      core_step w w'
  | core_create (t : Transaction) :
      db_transaction w !! tx_id t = None →
      db_transaction w' = <[tx_id t := t]> (db_transaction w) →
      userStates w' = userStates w →
      core_step w w'
  | core_resolve (id : string) (t : Transaction) (s : TransactionStatus) :
      db_transaction w !! id = Some t → tx_status t = PENDING →
      db_transaction w' = <[id := with_status s t]> (db_transaction w) →
      userStates w' = userStates w →
      core_step w w'
  | core_accept (op : Z) (id userId destination : string) (t : Transaction) :
      db_transaction w !! id = Some t → tx_status t = PENDING →
      db_transaction w' = <[id := accepted_by userId destination t]> (db_transaction w) →
      userStates w' = <[op := awaitingScreenshotFor id]> (userStates w) →
      core_step w w'
  | core_finish (op : Z) (st : UserState) (id : string) (t : Transaction)
      (s : TransactionStatus) :
      userStates w !! op = Some st → currentTransactionId st = Some id →
      db_transaction w !! id = Some t →
      db_transaction w' = <[id := with_status s t]> (db_transaction w) →
      userStates w' = <[op := idleState]> (userStates w) →
      core_step w w'.

(** ** Handlers in flight at the same time *)

(** The timer of the pending transaction, operator 7 pressing the accept
    button, and operator 7 sending the receipt. *)
Definition timer_accept_upload : Pool :=
  [ perform config0 everything_delivered
      (TimerFires txA "https://api.example.com/callback");
    perform config0 everything_delivered
      (BotUpdate 7 (Some "op1") "u-x" "u-y" (ApButton "TX_550e8400"));
    perform config0 everything_delivered
      (BotUpdate 7 (Some "op1") "u-x" "u-y" (PhotoOrDocument photo_ok)) ].

(** The timer reads the row; the accept runs to its end; the timer goes on
    with its update and its callback. *)
Definition timer_straddles_accept : list nat :=
  [0%nat] ++ replicate 8 1%nat ++ [0%nat; 0%nat].

(** The world after that: the row is EXPIRED and the state of operator 7
    awaits the receipt. *)
Definition world_expired_late : World :=
  snd (exec true timer_straddles_accept timer_accept_upload world_pending).

(** Then the receipt is sent. *)
Definition then_upload : list nat := replicate 11 2%nat.

(** ** Concurrent accept attempts and the expiry timer *)



(** Where a handler of the race stands: the points between two atomic
    actions of [handleAcceptPayout] and of the timer callback.  [A_done] and
    [T_done] are the returned handlers; [A_done] remembers the reply sent. *)
Inductive Phase :=
  | A_start (sender : Z) (destination : string)
  | A_user (sender : Z) (destination : string)
  | A_tx (sender : Z) (destination : string) (user : User)
  | A_set (sender : Z) (destination : string)
  | A_reply (sender : Z) (r : Reply)
  | A_done (sender : Z) (r : Reply)
  | T_start (callback_url : string)
  | T_update (callback_url : string)
  | T_post (callback_url : string)
  | T_log (callback_url : string)
  | T_done.





Definition is_accepted (r : Reply) : bool :=
  match r with
  | MsgAccepted _ => true
  | _ => false
  end.

(** The acceptance replies among some replies. *)
Definition acceptances (rs : list (Z * Reply)) : list (Z * Reply) :=
  List.filter (λ sr, is_accepted sr.2) rs.



(** The reply a returned accept handler has sent. *)
Definition sent1 (ph : Phase) : option (Z * Reply) :=
  match ph with
  | A_done sender r => Some (sender, r)
  | _ => None
  end.

Definition sent (phases : list Phase) : list (Z * Reply) := omap sent1 phases.






(** Operators 7 and 8 press accept on the pending transaction. *)
Definition two_accepts : Pool :=
  [ handleAcceptPayout 7 txA "4276123456789012";
    handleAcceptPayout 8 txA "4276123456789012" ].

(** Both read the row, both find their user, both re-read the row inside
    their transaction block, then both update and reply. *)
Definition both_read_then_both_write : list nat :=
  [0; 1; 0; 1; 0; 1; 0; 1; 0; 1; 0; 1]%nat.


(** The row of the pending transaction of the scenario. *)
Definition txA_row : Transaction :=
  {| tx_id := txA; tx_amount := num 500; tx_currency := "RUB";
     tx_status := PENDING; tx_paymentMethod := "sberbank";
     tx_userId := None; tx_destination := Some "4276123456789012";
     tx_callbackUrl := Some "https://api.example.com/callback";
     tx_metadata := (None, num 1678901234);
     tx_expiresAt := (num 1678901834 * num 1000)%Qc |}.



(** ** Further specification-level definitions *)

(** Every character of [s] satisfies [p]. *)
Fixpoint string_forall (p : ascii → bool) (s : string) : bool :=
  match s with
  | EmptyString => true
  | String c r => p c && string_forall p r
  end.

(** The callback of [this.bot.action(/ap:([^:]+):(\d+)/, ...)] on the data of
    a pressed button: it runs [ap] on the first group when the expression
    matches and is not run otherwise. *)
Definition ap_action (sender : Z) (data : string) : Prog unit :=
  match match_ap data with
  | Some (shortId, _) => ap sender shortId
  | None => Ret ()
  end.

(** A request whose bank, amount and timestamps pass validation. *)
Definition valid_request (config : Config) (body : CreateBody) : bool :=
  validateBankId (walletId body) && validateAmount config (amount body)
  && validateTimes (expiredTime body) (expiredOfferTime body).

(** A transaction id as [generateUniqueId] makes it: ["TX_"] and a non-empty
    run of lower-case hexadecimal digits and dashes. *)
Definition generated_id (id : string) : Prop :=
  ∃ u, id = "TX_" +:+ u ∧ u ≠ "" ∧ string_forall hex_or_dash u = true.

Definition no_dot (c : ascii) : bool := negb (bool_decide (c = "."%char)).

(** ** Every write of the engine *)

(** The tables and the operator states. *)
Definition tables (w : World)
    : gmap string Transaction * list User * gmap string Screenshot * gmap Z UserState :=
  (db_transaction w, db_user w, db_screenshot w, userStates w).

(** The [data] of the two updates of a user. *)
Definition with_balance (amount : Number) (u : User) : User :=
  {| user_id := user_id u; user_telegramId := user_telegramId u;
     user_username := user_username u; user_isAdmin := user_isAdmin u;
     user_balance := amount; user_maxBalance := amount |}.

Definition as_operator (u : User) : User :=
  {| user_id := user_id u; user_telegramId := user_telegramId u;
     user_username := user_username u; user_isAdmin := true;
     user_balance := user_balance u; user_maxBalance := user_maxBalance u |}.

(** [ctx.state.isOperator] as the middleware computes it. *)
Definition is_operator (telegramId : Z) (w : World) : bool :=
  from_option user_isAdmin false (find_user telegramId (db_user w)).

(** The unique constraints of [db.user.create]. *)
Definition user_clash (u : User) (us : list User) : bool :=
  existsb (λ v, bool_decide (user_telegramId v = user_telegramId u)
                || bool_decide (user_id v = user_id u)) us.

(** What one handler does to the tables and the operator states, with the
    sender of the update it serves ([None] for a creation request and for a
    timer). *)
Inductive life_step (config : Config) (actor : option Z) (w w' : World) : Prop :=
  | life_same :
      tables w' = tables w →
      life_step config actor w w'
  | life_state (op : Z) (st : UserState) :
      tables w' = (db_transaction w, db_user w, db_screenshot w,
                   <[op := st]> (userStates w)) →
      actor = Some op →
      currentTransactionId st = None →
      (awaitingOperatorId st = true → op = ADMIN_TELEGRAM_ID config) →
      life_step config actor w w'
  | life_create (t : Transaction) :
      tables w' = (<[tx_id t := t]> (db_transaction w), db_user w, db_screenshot w,
                   userStates w) →
      db_transaction w !! tx_id t = None →
      tx_status t = PENDING → tx_userId t = None →
      life_step config actor w w'
  | life_resolve (id : string) (t : Transaction) (s : TransactionStatus) :
      tables w' = (<[id := with_status s t]> (db_transaction w), db_user w,
                   db_screenshot w, userStates w) →
      db_transaction w !! id = Some t → tx_status t = PENDING →
      s = EXPIRED ∨ s = FAILED →
      life_step config actor w w'
  | life_accept (op : Z) (id destination : string) (user : User) (t : Transaction) :
      tables w' = (<[id := accepted_by (user_id user) destination t]> (db_transaction w),
                   db_user w, db_screenshot w,
                   <[op := awaitingScreenshotFor id]> (userStates w)) →
      actor = Some op →
      find_user op (db_user w) = Some user →
      db_transaction w !! id = Some t → tx_status t = PENDING →
      life_step config actor w w'
  | life_cancel (op : Z) (st : UserState) (id : string) (t : Transaction) :
      tables w' = (<[id := with_status CANCELLED t]> (db_transaction w), db_user w,
                   db_screenshot w, <[op := idleState]> (userStates w)) →
      actor = Some op →
      userStates w !! op = Some st → currentTransactionId st = Some id →
      db_transaction w !! id = Some t →
      life_step config actor w w'
  | life_receipt (op : Z) (st : UserState) (id : string) (t : Transaction)
      (user : User) (shot : Screenshot) :
      tables w' = (<[id := with_status COMPLETED t]> (db_transaction w), db_user w,
                   <[id := shot]> (db_screenshot w),
                   <[op := idleState]> (userStates w)) →
      actor = Some op →
      userStates w !! op = Some st → currentTransactionId st = Some id →
      db_transaction w !! id = Some t →
      find_user op (db_user w) = Some user →
      db_screenshot w !! id = None →
      shot_transactionId shot = id → shot_userId shot = user_id user →
      life_step config actor w w'
  | life_register (u : User) :
      tables w' = (db_transaction w, db_user w ++ [u], db_screenshot w, userStates w) →
      actor = Some (user_telegramId u) →
      user_clash u (db_user w) = false →
      user_isAdmin u = false →
      user_balance u = num 0 → user_maxBalance u = num 0 →
      life_step config actor w w'
  | life_balance (op : Z) (st : UserState) (amount : Number) :
      tables w' = (db_transaction w, update_user op (with_balance amount) (db_user w),
                   db_screenshot w, <[op := idleState]> (userStates w)) →
      actor = Some op →
      userStates w !! op = Some st → awaitingBalance st = true →
      (num 0 ≤ amount)%Qc →
      life_step config actor w w'
  | life_enrol (op : Z) (st : UserState) (telegramId : Z) :
      tables w' = (db_transaction w, update_user telegramId as_operator (db_user w),
                   db_screenshot w, <[op := idleState]> (userStates w)) →
      actor = Some op →
      userStates w !! op = Some st → awaitingOperatorId st = true →
      life_step config actor w w'
  | life_enrol_new (op : Z) (st : UserState) (u : User) :
      tables w' = (db_transaction w, db_user w ++ [u], db_screenshot w,
                   <[op := idleState]> (userStates w)) →
      actor = Some op →
      userStates w !! op = Some st → awaitingOperatorId st = true →
      user_clash u (db_user w) = false →
      user_isAdmin u = true →
      user_balance u = num 0 → user_maxBalance u = num 0 →
      life_step config actor w w'.

(** The sender of the update an action carries. *)
Definition actor_of (a : Action) : option Z :=
  match a with
  | BotUpdate sender _ _ _ _ => Some sender
  | CreateRequest _ _ | TimerFires _ _ => None
  end.

(** The edges of the lifecycle, and what can follow what. *)
Definition edge (s s' : TransactionStatus) : bool :=
  match s, s' with
  | PENDING, (ACCEPTED | EXPIRED | FAILED) => true
  | ACCEPTED, (COMPLETED | CANCELLED) => true
  | _, _ => false
  end.

Definition leads_to (s s' : TransactionStatus) : bool :=
  bool_decide (s = s') || edge s s'
  || bool_decide (s = PENDING) && (bool_decide (s' = COMPLETED) || bool_decide (s' = CANCELLED)).

(** What a creation request fixes in a row, and what an acceptance fixes. *)
Definition same_request (t t' : Transaction) : Prop :=
  tx_id t' = tx_id t ∧ tx_amount t' = tx_amount t ∧ tx_currency t' = tx_currency t
  ∧ tx_paymentMethod t' = tx_paymentMethod t ∧ tx_callbackUrl t' = tx_callbackUrl t
  ∧ tx_metadata t' = tx_metadata t ∧ tx_expiresAt t' = tx_expiresAt t.

Definition same_operator (t t' : Transaction) : Prop :=
  tx_userId t' = tx_userId t ∧ tx_destination t' = tx_destination t.

(** Bookkeeping of a run that started without operator states: the states
    and the rows agree ([consistent]), only the administrator is asked for an
    operator id, and a transaction an operator's state points at carries that
    operator's user id. *)
Definition sound (config : Config) (w : World) : Prop :=
  consistent w
  ∧ (∀ op st, userStates w !! op = Some st → awaitingOperatorId st = true →
       op = ADMIN_TELEGRAM_ID config)
  ∧ (∀ op st id, userStates w !! op = Some st → currentTransactionId st = Some id →
       ∃ user, find_user op (db_user w) = Some user
               ∧ operator_of w id = Some (user_id user)).

(** Receipts and completions agree: a transaction is COMPLETED exactly when
    a receipt is stored for it, and the receipt is filed under that
    transaction and under the user id of its operator, a user on record. *)
Definition receipts_ok (w : World) : Prop :=
  ∀ id,
    (status_of w id = Some COMPLETED ↔ is_Some (db_screenshot w !! id))
    ∧ (∀ shot, db_screenshot w !! id = Some shot →
         shot_transactionId shot = id
         ∧ operator_of w id = Some (shot_userId shot)
         ∧ ∃ k u, find_user k (db_user w) = Some u ∧ user_id u = shot_userId shot).

(** Operator 7 holds the accepted transaction and presses "set balance":
    the state that pointed at the transaction is overwritten. *)
Definition world_orphaned : World :=
  serial config0 everything_delivered
    [BotUpdate 7 (Some "op1") "u-x" "u-y" SetBalanceButton] world_accepted.



(** * Properties *)

(** ** The rate aggregator *)

Section RateProperties.

Implicit Types rates sorted : list Double.

(** A positive double is a positive infinity or a positive finite number. *)
Lemma positive_sign (x : Double) :
  positive x = true →
  match x with
  | S754_infinity false | S754_finite false _ _ => True
  | _ => False
  end.
Proof. by destruct x as [[]|[]| |[] ? ?]. Qed.

(** Rounding keeps the sign. *)
Lemma binary_round_aux_sign (s : bool) (m e : Z) (l : location) :
  match binary_round_aux 53 1024 s m e l with
  | S754_zero s' | S754_infinity s' | S754_finite s' _ _ => s' = s
  | S754_nan => True
  end.
Proof.
  unfold binary_round_aux.
  destruct (shr_fexp 53 1024 m e l) as [mrs e'].
  destruct (shr_fexp 53 1024 _ e' loc_Exact) as [mrs' e''].
  destruct (shr_m mrs'); [done| |done].
  by destruct (Z.leb e'' (1024 - 53)).
Qed.

Lemma positive_normalize (z e : Z) :
  positive (binary_normalize 53 1024 z e false) = true → (0 < z)%Z.
Proof.
  destruct z as [|m|m]; [done|lia|].
  intros Hpos. apply positive_sign in Hpos. exfalso.
  unfold binary_normalize, binary_round in Hpos.
  destruct (shl_align m e _) as [mz ez].
  pose proof (binary_round_aux_sign true (Z.pos mz) ez loc_Exact) as Hsign.
  destruct (binary_round_aux 53 1024 true (Z.pos mz) ez loc_Exact) as [[]|[]| |[] ? ?];
    done.
Qed.

(** The comparator never puts each of two samples after the other. *)
Lemma after_asym (a b : Double) : after a b = true → after b a = false.
Proof.
  unfold after, compareFn, dsub.
  destruct a as [sa|sa| |sa ma ea], b as [sb|sb| |sb mb eb];
    try done; try (by destruct sa, sb); try (by destruct sa); try (by destruct sb).
  cbn [SFsub]. intros Hab.
  destruct (positive (binary_normalize 53 1024 _ (Z.min eb ea) false)) eqn:Hba; [|done].
  apply positive_normalize in Hab, Hba. rewrite (Z.min_comm eb ea) in Hba. lia.
Qed.

Lemma insert_sorted_perm (x : Double) sorted : insert_sorted x sorted ≡ₚ x :: sorted.
Proof.
  induction sorted as [|y rest IH]; simpl; [done|].
  destruct (after y x); [done|]. rewrite IH. apply perm_swap.
Qed.

Lemma sortAscending_perm rates : sortAscending rates ≡ₚ rates.
Proof.
  unfold sortAscending.
  assert (H : ∀ acc, foldl (λ sorted x, insert_sorted x sorted) acc rates ≡ₚ acc ++ rates).
  { induction rates as [|x rates IH]; intros acc; simpl; [by rewrite app_nil_r|].
    rewrite IH, insert_sorted_perm. by rewrite <- Permutation_middle. }
  apply (H []).
Qed.

Lemma insert_sorted_hd (x y : Double) sorted :
  before y x → HdRel before y sorted → HdRel before y (insert_sorted x sorted).
Proof.
  intros Hyx Hhd. destruct sorted as [|z rest]; simpl; [by constructor|].
  destruct (after z x); constructor; [done|]. by inversion Hhd.
Qed.

Lemma insert_sorted_sorted (x : Double) sorted :
  Sorted before sorted → Sorted before (insert_sorted x sorted).
Proof.
  induction 1 as [|y rest Hs IH Hhd]; simpl; [by repeat constructor|].
  destruct (after y x) eqn:Hyx.
  - constructor; [by constructor|]. constructor. by apply after_asym.
  - constructor; [done|]. by apply insert_sorted_hd.
Qed.

(** The sort leaves the samples in the order of the comparator. *)
Lemma sortAscending_sorted rates : Sorted before (sortAscending rates).
Proof.
  unfold sortAscending.
  assert (H : ∀ acc, Sorted before acc →
            Sorted before (foldl (λ sorted x, insert_sorted x sorted) acc rates)).
  { induction rates as [|x rates IH]; intros acc Hacc; simpl; [done|].
    apply IH. by apply insert_sorted_sorted. }
  apply H. constructor.
Qed.

Lemma at_index_nat (l : list Double) (i : nat) : at_index l (Z.of_nat i) = l !! i.
Proof.
  unfold at_index. rewrite bool_decide_eq_false_2 by lia.
  by rewrite Nat2Z.id.
Qed.

Lemma odd_mod2 (n : nat) :
  negb (bool_decide ((Z.of_nat n mod 2)%Z = 0%Z)) = Nat.odd n.
Proof.
  destruct (Nat.odd n) eqn:Ho.
  - apply Nat.odd_spec in Ho as [k ->].
    rewrite bool_decide_eq_false_2; [done|].
    replace (Z.of_nat (2 * k + 1)) with (1 + Z.of_nat k * 2)%Z by lia.
    rewrite Z_mod_plus_full. done.
  - assert (He : Nat.even n = true) by (rewrite <- Nat.negb_odd, Ho; done).
    apply Nat.even_spec in He as [k ->].
    rewrite bool_decide_eq_true_2; [done|].
    replace (Z.of_nat (2 * k)) with (Z.of_nat k * 2)%Z by lia.
    apply Z_mod_mult.
Qed.

(** On a sorted list the code reads the positions the specification
    names. *)
Lemma median_positions sorted :
  sorted ≠ [] →
  (let mid := (Z.of_nat (length sorted) / 2)%Z in
   if negb (bool_decide ((Z.of_nat (length sorted) mod 2)%Z = 0%Z))
   then at_index sorted mid
   else a ← at_index sorted (mid - 1)%Z; b ← at_index sorted mid;
        Some (ddiv (dadd a b) (double 2)))
  = median_of_sorted sorted.
Proof.
  intros Hne. unfold median_of_sorted. cbv zeta.
  rewrite odd_mod2.
  assert (Hmid : (Z.of_nat (length sorted) / 2)%Z
                 = Z.of_nat (length sorted / 2)).
  { by rewrite (Nat2Z.inj_div _ 2). }
  rewrite Hmid, at_index_nat.
  destruct (Nat.odd (length sorted)) eqn:Ho; [done|].
  assert (Hlen : (2 ≤ length sorted)%nat).
  { destruct sorted as [|x [|y l]]; [done|discriminate Ho|simpl; lia]. }
  assert (Hhalf : (1 ≤ length sorted / 2)%nat).
  { apply (Nat.Div0.div_le_mono _ _ 2) in Hlen. exact Hlen. }
  replace (Z.of_nat (length sorted / 2) - 1)%Z
    with (Z.of_nat (length sorted / 2 - 1)) by lia.
  by rewrite at_index_nat.
Qed.

Lemma median_of_sorted_is_Some sorted :
  sorted ≠ [] → is_Some (median_of_sorted sorted).
Proof.
  intros Hne. unfold median_of_sorted.
  assert (Hpos : (0 < length sorted)%nat).
  { destruct sorted; [done|simpl; lia]. }
  assert (Hlt : (length sorted / 2 < length sorted)%nat).
  { apply Nat.div_lt; lia. }
  destruct (lookup_lt_is_Some_2 sorted (length sorted / 2) Hlt) as [b Hb].
  destruct (Nat.odd (length sorted)); [by rewrite Hb; eexists|].
  assert (Hlt' : (length sorted / 2 - 1 < length sorted)%nat) by lia.
  destruct (lookup_lt_is_Some_2 sorted _ Hlt') as [a Ha].
  rewrite Ha, Hb. simpl. by eexists.
Qed.

Lemma length_zero_nil {A} (l : list A) : Nat.eqb (length l) 0 = true ↔ l = [].
Proof. destruct l; simpl; split; intros; congruence. Qed.

(** C7 (as the code has it).  Whenever at least one source succeeded and no
    sample is NaN, the rate of the cycle is read off the samples put in the
    order of the comparator [a - b]: the middle one for an odd count; for an
    even count the sum of the two middle ones, rounded to a double, halved.
    This is the value the cycle stores under [COMBINED] and puts in the
    cache.  Samples 10, 12, 14 give 12, samples 10, 12 give 11, and with one
    of three sources failing the two that remain give their rate. *)
Theorem consensus_is_median_in_doubles (results : list (Settled Double))
    (now : Number) (w : RateWorld) :
  (successfulRates results ≠ [] →
   Forall (λ x, x ≠ S754_nan) (successfulRates results) →
   let sorted := sortAscending (successfulRates results) in
   sorted ≡ₚ successfulRates results
   ∧ Sorted before sorted
   ∧ ∃ m, median_of_sorted sorted = Some m
        ∧ calculateAccurateRate (successfulRates results) = Some m
        ∧ db_exchangeRate (updateRates now results w) !! ("USDT", "RUB", "COMBINED")
          = Some (m, now)
        ∧ cache (updateRates now results w) !! "rate:RUB:USDT"
          = Some (m, (now + num 300000)%Qc))
  ∧ calculateAccurateRate [double 10; double 14; double 12] = Some (double 12)
  ∧ calculateAccurateRate [double 12; double 10] = Some (double 11)
  ∧ calculateAccurateRate
      (successfulRates [Fulfilled (double 12); Rejected; Fulfilled (double 10)])
    = Some (double 11).
Proof.
  split; [|by vm_compute].
  intros Hne _. cbv zeta.
  split; [apply sortAscending_perm|]. split; [apply sortAscending_sorted|].
  assert (Hsne : sortAscending (successfulRates results) ≠ []).
  { intros Hnil. pose proof (sortAscending_perm (successfulRates results)) as Hp.
    rewrite Hnil in Hp. apply Permutation_nil_l in Hp. done. }
  destruct (median_of_sorted_is_Some _ Hsne) as [m Hm].
  assert (Hc : calculateAccurateRate (successfulRates results) = Some m).
  { unfold calculateAccurateRate. rewrite <- Hm. by apply median_positions. }
  exists m. split; [done|]. split; [done|].
  unfold updateRates.
  destruct (Nat.eqb (length (successfulRates results)) 0) eqn:Hz.
  { apply length_zero_nil in Hz. done. }
  rewrite Hc. simpl. unfold cache_set.
  by rewrite !lookup_insert_eq.
Qed.

(** One of three sources fails: the rate is that of the two that remain. *)
Lemma consensus_is_median_in_doubles_witness :
  let results := [Fulfilled (double 12); Rejected; Fulfilled (double 10)] in
  let sorted := sortAscending (successfulRates results) in
  sorted ≡ₚ successfulRates results
  ∧ Sorted before sorted
  ∧ ∃ m, median_of_sorted sorted = Some m
       ∧ calculateAccurateRate (successfulRates results) = Some m
       ∧ db_exchangeRate (updateRates (num 7) results (mkRateWorld ∅ ∅ []))
           !! ("USDT", "RUB", "COMBINED")
         = Some (m, num 7)
       ∧ cache (updateRates (num 7) results (mkRateWorld ∅ ∅ [])) !! "rate:RUB:USDT"
         = Some (m, (num 7 + num 300000)%Qc).
Proof.
  apply (proj1 (consensus_is_median_in_doubles
                  [Fulfilled (double 12); Rejected; Fulfilled (double 10)]
                  (num 7) (mkRateWorld ∅ ∅ []))).
  - discriminate.
  - repeat constructor; discriminate.
Defined.

(** C7, the claim as stated, fails on doubles.  Two samples of 1e308 have
    the median 1e308, and the code returns Infinity: their sum overflows.
    Samples 0.1 and 0.2 give 0.15000000000000002, which is not their mean:
    the sum is rounded before it is halved.  All four numbers are doubles. *)
Lemma median_in_doubles_counterexample :
  (calculateAccurateRate [d1e308; d1e308] = Some (S754_infinity false)
   ∧ ∃ q, exact d1e308 = Some q ∧ (exact_mean q q == q)%Q)
  ∧ (calculateAccurateRate [d0_1; d0_2] = Some d0_15000000000000002
     ∧ ∃ a b r, exact d0_1 = Some a ∧ exact d0_2 = Some b
                ∧ exact d0_15000000000000002 = Some r
                ∧ ¬ (r == exact_mean a b)%Q)
  ∧ Forall (λ x, valid_binary 53 1024 x = true)
      [d1e308; d0_1; d0_2; d0_15000000000000002].
Proof.
  split; [|split].
  - split; [by vm_compute|]. eexists. split; [reflexivity|].
    apply Qeq_bool_iff. by vm_compute.
  - split; [by vm_compute|]. eexists _, _, _. repeat split; try reflexivity.
    intros Heq. apply Qeq_bool_iff in Heq. vm_compute in Heq. discriminate.
  - repeat constructor.
Qed.

(** C8.  When no source succeeded the cycle writes nothing: the table of
    rates and the cache are what they were, so no rate at all (zero, null or
    other) is stored; only the failure is logged. *)
Theorem no_source_no_write (now : Number) (results : list (Settled Double))
    (w : RateWorld) :
  successfulRates results = [] →
  db_exchangeRate (updateRates now results w) = db_exchangeRate w
  ∧ cache (updateRates now results w) = cache w
  ∧ rate_log (updateRates now results w) = rate_log w ++ [RateUpdateFailed].
Proof.
  intros Hnone. unfold updateRates. rewrite Hnone. simpl. done.
Qed.

Lemma no_source_no_write_witness :
  db_exchangeRate (updateRates (num 5) [Rejected; Rejected] rates_before)
  = db_exchangeRate rates_before
  ∧ cache (updateRates (num 5) [Rejected; Rejected] rates_before) = cache rates_before
  ∧ rate_log (updateRates (num 5) [Rejected; Rejected] rates_before)
    = rate_log rates_before ++ [RateUpdateFailed].
Proof.
  apply (no_source_no_write (num 5) [Rejected; Rejected] rates_before). reflexivity.
Defined.

End RateProperties.

(** ** Running handlers *)

Lemma run_bind {A B} (p : Prog A) (f : A → Prog B) (w : World) :
  run (bind p f) w = let '(a, w') := run p w in run (f a) w'.
Proof.
  revert B f w. induction p as [A a|A X a k IH|A X body IHb k IH]; intros B f w.
  - done.
  - simpl. destruct (effect a w) as [x w']. apply IH.
  - simpl. destruct (run body w) as [x w']. apply IH.
Qed.

(** ** The short-identifier mapping *)

Section ShortId.

Context (net : Network).

Lemma dispatch_one_mappings (w : World) (d : Dispatch) :
  transactionMappings (dispatch_one net w d)
  = if delivers net d.1.1
    then <[shortTxId d.1.2 := d.1.2]> (transactionMappings w)
    else transactionMappings w.
Proof.
  unfold dispatch_one, sendPayoutRequest. simpl.
  destruct (delivers net d.1.1); done.
Qed.

Lemma dispatch_one_transactions (w : World) (d : Dispatch) :
  db_transaction (dispatch_one net w d) = db_transaction w.
Proof.
  unfold dispatch_one, sendPayoutRequest. simpl.
  destruct (delivers net d.1.1); done.
Qed.

Lemma dispatch_all_lookup (ds : list Dispatch) (w : World) (s : string) :
  transactionMappings (dispatch_all net ds w) !! s
  = match last_delivered net s ds with
    | Some fullId => Some fullId
    | None => transactionMappings w !! s
    end.
Proof.
  induction ds as [|d ds IH] using rev_ind.
  - done.
  - unfold dispatch_all, last_delivered in *.
    rewrite foldl_app, omap_app. simpl.
    rewrite dispatch_one_mappings.
    destruct (delivers net d.1.1); simpl.
    + case_bool_decide as Hs; simpl.
      * rewrite last_snoc. subst s. apply lookup_insert_eq.
      * rewrite app_nil_r. rewrite lookup_insert_ne by done. apply IH.
    + rewrite app_nil_r. apply IH.
Qed.

(** When every message goes out, the dispatches that count are all of
    them. *)
Lemma last_delivered_all (ds : list Dispatch) (s : string) :
  (∀ d, d ∈ ds → delivers net d.1.1 = true) →
  last_delivered net s ds = last_dispatched s ds.
Proof.
  intros Hall. unfold last_delivered, last_dispatched, omap. f_equal.
  induction ds as [|d ds IH]; [done|].
  assert (Hrest : ∀ d', d' ∈ ds → delivers net d'.1.1 = true)
    by (intros d' Hd'; apply Hall; set_solver).
  specialize (IH Hrest). simpl in *.
  rewrite (Hall d) by set_solver. simpl. by rewrite IH.
Qed.

End ShortId.

Lemma substring0_append (a b : string) (n : nat) :
  substring0 (String.length a + n) (a +:+ b) = a +:+ substring0 n b.
Proof.
  unfold substring0. induction a as [|c a IH]; simpl; [done|].
  by rewrite IH.
Qed.

Lemma substring0_length (n : nat) (s : string) :
  (n ≤ String.length s)%nat → String.length (substring0 n s) = n.
Proof.
  unfold substring0. revert n.
  induction s as [|c s IH]; intros [|n] H; simpl in *; try done; try lia.
  f_equal. apply IH. lia.
Qed.

Lemma string_length_append (a b : string) :
  String.length (a +:+ b) = (String.length a + String.length b)%nat.
Proof. induction a; simpl; [done|]. by f_equal. Qed.

(** C10 (as the code has it).  The short id built at dispatch is the first
    11 characters of the full id, that is ["TX_"] and the first 8 characters
    of the UUID.  The mapping is last-write-wins among the dispatches whose
    message went out: after any sequence of dispatches, [getFullTransactionId]
    returns for a short id the full id of the most recent dispatch carrying
    this short id whose message was delivered (for an 11-character short id
    the full id begins with it), and what it returned before when there is
    none; when every message is delivered that is the most recently
    dispatched transaction.  When it returns a full id whose row exists, the
    accept button runs the acceptance of that transaction; when it returns
    nothing, the button replies not-found and neither the transaction table
    nor any operator state changes. *)
Theorem short_id_resolves_last_delivered (net : Network) (ds : list Dispatch)
    (w : World) (s : string) (sender : Z) :
  (∀ uuid, (8 ≤ String.length uuid)%nat →
     shortTxId (generateUniqueId uuid) = "TX_" +:+ substring0 8 uuid
     ∧ String.length (shortTxId (generateUniqueId uuid)) = 11%nat)
  ∧ (String.length s = 11%nat →
     ∀ fullId, shortTxId fullId = s ↔ String.prefix s fullId = true)
  ∧ resolve s (dispatch_all net ds w)
    = match last_delivered net s ds with
      | Some fullId => Some fullId
      | None => resolve s w
      end
  ∧ ((∀ d, d ∈ ds → delivers net d.1.1 = true) →
     last_delivered net s ds = last_dispatched s ds)
  ∧ (resolve s w = None → last_delivered net s ds = None →
     resolve s (dispatch_all net ds w) = None)
  ∧ (∀ fullId t,
       let w' := dispatch_all net ds w in
       resolve s w' = Some fullId → fullId ≠ "" →
       db_transaction w' !! fullId = Some t →
       run (ap sender s) w'
       = run (handleAcceptPayout sender fullId (default "" (tx_destination t))) w')
  ∧ (resolve s (dispatch_all net ds w) = None →
     let w' := dispatch_all net ds w in
     let after := snd (run (ap sender s) w') in
     outbox after = outbox w' ++ [EvReply sender MsgMappingNotFound]
     ∧ condition MsgMappingNotFound = Some NotFound
     ∧ db_transaction after = db_transaction w'
     ∧ userStates after = userStates w').
Proof.
  split; [|split; [|split; [|split; [|split; [|split]]]]].
  - intros uuid Hlen. unfold shortTxId, generateUniqueId.
    change 11%nat with (String.length "TX_" + 8)%nat.
    rewrite substring0_append. split; [done|].
    rewrite string_length_append, substring0_length by done. done.
  - intros Hlen fullId. unfold shortTxId, substring0. rewrite <- Hlen.
    symmetry. apply String.prefix_correct.
  - unfold resolve. simpl. apply dispatch_all_lookup.
  - apply last_delivered_all.
  - unfold resolve. simpl. intros Hbefore Hnone.
    by rewrite dispatch_all_lookup, Hnone.
  - intros fullId t. cbv zeta. unfold resolve.
    cbn [fst effect getFullTransactionId]. intros Hres Hne Ht.
    remember (run (handleAcceptPayout sender fullId (default "" (tx_destination t)))
                (dispatch_all net ds w)) as accepted eqn:Haccepted.
    unfold ap. cbn [run effect getFullTransactionId fst snd]. rewrite Hres.
    cbn [truthy]. rewrite (bool_decide_eq_false_2 (fullId = "")) by done.
    cbn [negb default from_option run effect transaction_findUnique fst snd].
    unfold id. rewrite Ht. by rewrite Haccepted.
  - unfold resolve. simpl. intros Hnone. cbv zeta. unfold ap. simpl.
    rewrite Hnone. simpl. done.
Qed.

(** Two transactions sharing a prefix, all messages delivered: the later
    one wins the short id and the accept button accepts it; an unknown short
    id resolves to nothing and the button replies not-found. *)
Lemma short_id_resolves_last_delivered_witness :
  shortTxId (generateUniqueId "550e8400-e29b-41d4-a716-446655440000") = "TX_550e8400"
  ∧ resolve "TX_aaaaaaaa" (dispatch_all everything_delivered dispatches_example emptyWorld)
    = Some "TX_aaaaaaaa-2222"
  ∧ last_delivered everything_delivered "TX_aaaaaaaa" dispatches_example
    = last_dispatched "TX_aaaaaaaa" dispatches_example
  ∧ outbox (snd (run (ap 7 "TX_cccccccc")
                   (dispatch_all everything_delivered dispatches_example emptyWorld)))
    = outbox (dispatch_all everything_delivered dispatches_example emptyWorld)
      ++ [EvReply 7 MsgMappingNotFound]
  ∧ run (ap 8 "TX_550e8400") world_pending
    = run (handleAcceptPayout 8 txA "4276123456789012") world_pending.
Proof.
  pose proof (short_id_resolves_last_delivered everything_delivered dispatches_example
                emptyWorld "TX_aaaaaaaa" 7) as (Hshort & _ & Hlookup & Hall & _).
  pose proof (short_id_resolves_last_delivered everything_delivered dispatches_example
                emptyWorld "TX_cccccccc" 7) as (_ & _ & _ & _ & Hfresh & _ & Hmiss).
  pose proof (short_id_resolves_last_delivered everything_delivered [] world_pending
                "TX_550e8400" 8) as (_ & _ & _ & _ & _ & Haccept & _).
  split; [|split; [|split; [|split]]].
  - apply (Hshort "550e8400-e29b-41d4-a716-446655440000"). simpl. lia.
  - rewrite Hlookup. reflexivity.
  - apply Hall. intros d Hd. reflexivity.
  - apply Hmiss. apply Hfresh; reflexivity.
  - apply (Haccept txA txA_row); [vm_compute; reflexivity|discriminate|].
    vm_compute. reflexivity.
Defined.

(** C10, the claim as stated, fails.  Two transactions share the short id;
    the message of the first goes out, that of the second, dispatched later,
    is lost.  The most recently dispatched transaction is the second, and
    the short id resolves to the first. *)
Lemma short_id_most_recent_counterexample :
  let ds := [ (7%Z, "TX_aaaaaaaa-1111", "4276123456789012");
              (8%Z, "TX_aaaaaaaa-2222", "4276123456780000") ] in
  last_dispatched "TX_aaaaaaaa" ds = Some "TX_aaaaaaaa-2222"
  ∧ resolve "TX_aaaaaaaa" (dispatch_all operator8_unreachable ds emptyWorld)
    = Some "TX_aaaaaaaa-1111".
Proof. by vm_compute. Qed.

Section Creation.

Context (config : Config) (net : Network).

Lemma validateAmount_spec (a : Number) :
  validateAmount config a = true
  ↔ (MIN_PAYOUT_AMOUNT config ≤ a ∧ a ≤ MAX_PAYOUT_AMOUNT config)%Qc.
Proof.
  unfold validateAmount, geq, leq.
  rewrite andb_true_iff, !bool_decide_eq_true. done.
Qed.

(** C6.  A request whose amount is outside [MIN_PAYOUT_AMOUNT,
    MAX_PAYOUT_AMOUNT] is answered with a validation error (status 2, code
    400, no transaction id) and leaves the whole world, the transaction table
    included, as it was; an amount inside the interval passes
    [validateAmount]. *)
Theorem create_validates_amount (body : CreateBody) (uuid : string) (w : World) :
  (¬ (MIN_PAYOUT_AMOUNT config ≤ amount body ∧ amount body ≤ MAX_PAYOUT_AMOUNT config)%Qc →
     ∃ r, run (create config net body uuid) w = (validationError r, w)
        ∧ (r = UnsupportedMethod ∨ r = AmountOutOfRange))
  ∧ ((MIN_PAYOUT_AMOUNT config ≤ amount body ∧ amount body ≤ MAX_PAYOUT_AMOUNT config)%Qc →
     validateAmount config (amount body) = true).
Proof.
  split.
  - intros Hout. unfold create.
    destruct (validateBankId (walletId body)); simpl.
    + destruct (validateAmount config (amount body)) eqn:Hv; simpl.
      * apply validateAmount_spec in Hv. done.
      * exists AmountOutOfRange. auto.
    + exists UnsupportedMethod. auto.
  - apply validateAmount_spec.
Qed.

Lemma run_notifyOperators {A} (operators : list User) (transactionId destination : string)
    (k : Prog A) (w : World) :
  run (notifyOperators net operators transactionId destination k) w
  = run k (notified net transactionId destination operators w).
Proof.
  revert w. induction operators as [|o operators IH]; intros w; [done|].
  cbn [notifyOperators]. rewrite run_bind.
  destruct (run (sendPayoutRequest net (user_telegramId o) transactionId destination) w)
    as [[] w1] eqn:Hrun.
  rewrite IH. unfold notified at 2. cbn [foldl]. by rewrite Hrun.
Qed.

Lemma sendPayoutRequest_frame (transactionId destination : string) (o : User)
    (w : World) :
  let w' := snd (run (sendPayoutRequest net (user_telegramId o)
                        transactionId destination) w) in
  db_transaction w' = db_transaction w
  ∧ db_user w' = db_user w
  ∧ db_screenshot w' = db_screenshot w
  ∧ userStates w' = userStates w
  ∧ timers w' = timers w
  ∧ outbox w' = outbox w ++ dispatch_events net transactionId destination o.
Proof.
  unfold sendPayoutRequest, dispatch_events. simpl.
  destruct (delivers net (user_telegramId o)); done.
Qed.

Lemma notified_frame (transactionId destination : string) (operators : list User)
    (w : World) :
  let w' := notified net transactionId destination operators w in
  db_transaction w' = db_transaction w
  ∧ db_user w' = db_user w
  ∧ db_screenshot w' = db_screenshot w
  ∧ userStates w' = userStates w
  ∧ timers w' = timers w
  ∧ outbox w' = outbox w ++ flat_map (dispatch_events net transactionId destination) operators.
Proof.
  revert w. induction operators as [|o operators IH]; intros w.
  - simpl. by rewrite app_nil_r.
  - cbv zeta. unfold notified. cbn [foldl flat_map].
    match goal with
    | |- context [foldl _ ?w1 operators] =>
        fold (notified net transactionId destination operators w1);
        destruct (IH w1) as (Ht & Hu & Hs & Hst & Hti & Ho)
    end.
    destruct (sendPayoutRequest_frame transactionId destination o w)
      as (Ht1 & Hu1 & Hs1 & Hst1 & Hti1 & Ho1).
    rewrite Ht, Hu, Hs, Hst, Hti, Ho, Ht1, Hu1, Hs1, Hst1, Hti1, Ho1.
    by rewrite app_assoc.
Qed.

(** C5.  A valid request with a fresh id.  With no eligible operator (role
    flag set, balance at least the amount) the new row goes from PENDING to
    FAILED, the calls made are the insert, the operator query and that update
    and no message to anyone, and the answer is the failure with the reason
    "no operators" and code 503.  With at least one eligible operator the
    answer is the success carrying the new id, the row stays PENDING, every
    eligible operator was sent the request (or the failure to send was
    logged) and the expiry timer is armed. *)
Theorem create_dispatches (body : CreateBody) (uuid : string) (w : World) :
  validateBankId (walletId body) = true →
  validateAmount config (amount body) = true →
  validateTimes (expiredTime body) (expiredOfferTime body) = true →
  db_transaction w !! generateUniqueId uuid = None →
  let id := generateUniqueId uuid in
  let operators := List.filter (eligible (amount body)) (db_user w) in
  let response := fst (run (create config net body uuid) w) in
  let w' := snd (run (create config net body uuid) w) in
  (operators = [] →
     response = {| external_id := id; status := 2; reason := NoOperators; code := 503 |}
     ∧ tx_status <$> db_transaction w' !! id = Some FAILED
     ∧ outbox w' = outbox w
     ∧ transactionMappings w' = transactionMappings w
     ∧ timers w' = timers w
     ∧ calls (create config net body uuid) w
       = [TransactionCreate id; UserFindMany; TransactionUpdate id None FAILED])
  ∧ (operators ≠ [] →
     response = {| external_id := id; status := 1; reason := NoReason; code := 0 |}
     ∧ tx_status <$> db_transaction w' !! id = Some PENDING
     ∧ outbox w' = outbox w ++ flat_map (dispatch_events net id (destination body)) operators
     ∧ timers w' = timers w ++ [(id, callback_url body)]).
Proof.
  intros Hb Ha Ht Hfresh. cbv zeta. unfold create.
  rewrite Hb, Ha, Ht. simpl. rewrite Hfresh. simpl.
  split.
  - intros ->. simpl. rewrite lookup_insert_eq. simpl.
    rewrite lookup_insert_eq. done.
  - intros Hne.
    destruct (List.filter (eligible (amount body)) (db_user w)) as [|o operators] eqn:Hops;
      [done|].
    cbn [length Nat.eqb].
    rewrite run_notifyOperators.
    match goal with
    | |- context [notified net ?i ?d ?ops ?w0] =>
        destruct (notified_frame i d ops w0) as (Htx & _ & _ & _ & Hti & Ho);
        remember (notified net i d ops w0) as w1 eqn:Hw1
    end.
    simpl in *. rewrite Htx, Hti, Ho. rewrite lookup_insert_eq. done.
Qed.

End Creation.

(** ** Creation on concrete requests *)

Lemma create_validates_amount_witness :
  (∃ r, run (create config0 everything_delivered body50 uuidA) world0
        = (validationError r, world0)
      ∧ (r = UnsupportedMethod ∨ r = AmountOutOfRange))
  ∧ validateAmount config0 (amount body500) = true.
Proof.
  split.
  - apply (create_validates_amount config0 everything_delivered body50 uuidA world0).
    intros [Hmin _]. vm_compute in Hmin. by apply Hmin.
  - apply (create_validates_amount config0 everything_delivered body500 uuidA world0).
    split; vm_compute; discriminate.
Defined.

(** An amount no operator can cover fails the new transaction; an amount the
    operators can cover is dispatched to both of them. *)
Lemma create_dispatches_witness :
  (fst (run (create config0 everything_delivered body9000 uuidA) world0)
   = {| external_id := txA; status := 2; reason := NoOperators; code := 503 |}
   ∧ status_of (snd (run (create config0 everything_delivered body9000 uuidA) world0)) txA
     = Some FAILED
   ∧ outbox (snd (run (create config0 everything_delivered body9000 uuidA) world0)) = [])
  ∧ (fst (run (create config0 everything_delivered body500 uuidA) world0)
     = {| external_id := txA; status := 1; reason := NoReason; code := 0 |}
     ∧ status_of (snd (run (create config0 everything_delivered body500 uuidA) world0)) txA
       = Some PENDING).
Proof.
  split.
  - destruct (create_dispatches config0 everything_delivered body9000 uuidA world0)
      as [Hnone _]; try reflexivity.
    destruct Hnone as (Hr & Hs & Ho & _); [reflexivity|].
    split; [exact Hr|]. split; [exact Hs|exact Ho].
  - destruct (create_dispatches config0 everything_delivered body500 uuidA world0)
      as [_ Hsome]; try reflexivity.
    destruct Hsome as (Hr & Hs & _); [vm_compute; discriminate|].
    split; [exact Hr|exact Hs].
Defined.

(** ** Scenarios *)

Example world_pending_status : status_of world_pending txA = Some PENDING.
Proof. vm_compute. reflexivity. Qed.

Example world_accepted_status :
  status_of world_accepted txA = Some ACCEPTED
  ∧ operator_of world_accepted txA = Some "u-1"
  ∧ userStates world_accepted !! 7%Z = Some (awaitingScreenshotFor txA).
Proof. vm_compute. auto. Qed.

Example world_completed_status :
  status_of world_completed txA = Some COMPLETED
  ∧ userStates world_completed !! 7%Z = Some idleState.
Proof. vm_compute. auto. Qed.

Example world_failed_status : status_of world_failed txA = Some FAILED.
Proof. vm_compute. reflexivity. Qed.

Example world_expired_status : status_of world_expired txA = Some EXPIRED.
Proof. vm_compute. reflexivity. Qed.

(** ** Expiry *)

Section Expiry.

Context (net : Network).

Lemma expire_not_pending (id url : string) (w : World) :
  status_of w id ≠ Some PENDING →
  run (expire net id url) w = ((), w)
  ∧ calls (expire net id url) w = [TransactionFindUnique id].
Proof.
  unfold status_of, expire. simpl.
  destruct (db_transaction w !! id) as [t|]; simpl; [|done].
  intros Hs. rewrite bool_decide_eq_false_2; [done|]. congruence.
Qed.

Lemma expire_leaves_not_pending (id url : string) (w : World) :
  status_of (snd (run (expire net id url) w)) id ≠ Some PENDING.
Proof.
  destruct (decide (status_of w id = Some PENDING)) as [Hp|Hn].
  - unfold status_of, expire in *. simpl.
    destruct (db_transaction w !! id) as [t|] eqn:Ht; simpl in *; [|done].
    rewrite bool_decide_eq_true_2 by congruence. simpl. rewrite Ht. simpl.
    destruct (negb (bool_decide (url = ""))); simpl.
    + destruct (callback_ok net url); simpl; rewrite lookup_insert_eq; done.
    + rewrite lookup_insert_eq. done.
  - by rewrite (proj1 (expire_not_pending id url w Hn)).
Qed.

(** C9.  The timer callback on a transaction that is not PENDING (or is not
    there) returns having changed nothing: the world after it is the world
    before it, so no status is written, no callback is sent and no failure
    is logged, and the only call made is the read.  Firing twice is firing
    once: whatever the first firing did, the second changes nothing; on an
    EXPIRED transaction neither firing does anything. *)
Theorem expire_is_noop_unless_pending (id url : string) (w : World) :
  (status_of w id ≠ Some PENDING →
     run (expire net id url) w = ((), w)
     ∧ calls (expire net id url) w = [TransactionFindUnique id])
  ∧ run (expire net id url) (snd (run (expire net id url) w))
    = ((), snd (run (expire net id url) w))
  ∧ (status_of w id = Some EXPIRED →
     snd (run (expire net id url) w) = w
     ∧ snd (run (expire net id url) (snd (run (expire net id url) w))) = w).
Proof.
  split; [apply expire_not_pending|]. split.
  - apply expire_not_pending, expire_leaves_not_pending.
  - intros He.
    assert (Hn : status_of w id ≠ Some PENDING) by congruence.
    rewrite (proj1 (expire_not_pending id url w Hn)). cbn [snd].
    by rewrite (proj1 (expire_not_pending id url w Hn)).
Qed.

End Expiry.

(** The timer fires twice on the expired transaction of the scenario, and
    once on the completed one: nothing happens, and the one callback of the
    expiry stays the only one. *)
Lemma expire_is_noop_unless_pending_witness :
  run (expire everything_delivered txA "https://api.example.com/callback") world_expired
  = ((), world_expired)
  ∧ snd (run (expire everything_delivered txA "https://api.example.com/callback")
           (snd (run (expire everything_delivered txA
                        "https://api.example.com/callback") world_expired)))
    = world_expired
  ∧ run (expire everything_delivered txA "https://api.example.com/callback")
      world_completed
    = ((), world_completed)
  ∧ callbacks world_expired
    = [EvCallback "https://api.example.com/callback" txA 3].
Proof.
  pose proof (expire_is_noop_unless_pending everything_delivered txA
                "https://api.example.com/callback" world_expired) as (H1 & _ & H3).
  pose proof (expire_is_noop_unless_pending everything_delivered txA
                "https://api.example.com/callback" world_completed) as (H4 & _ & _).
  split; [|split; [|split]].
  - apply H1. vm_compute. discriminate.
  - apply H3. vm_compute. reflexivity.
  - apply H4. vm_compute. discriminate.
  - vm_compute. reflexivity.
Defined.

(** ** Proof confirmation *)

Section Confirmation.

Context (config : Config) (net : Network).

Lemma find_user_Some (telegramId : Z) (us : list User) (u : User) :
  find_user telegramId us = Some u → u ∈ us ∧ user_telegramId u = telegramId.
Proof.
  unfold find_user. intros H.
  destruct (list_find _ us) as [[i v]|] eqn:Hf; simpl in H; [|done].
  injection H as ->. apply list_find_Some in Hf as (Hl & Hp & _).
  split; [|done]. by eapply list_elem_of_lookup_2.
Qed.

Lemma user_on_record (u : User) (us : list User) :
  u ∈ us → existsb (λ v, bool_decide (user_id v = user_id u)) us = true.
Proof.
  intros Hin. apply existsb_exists. exists u. split.
  - by apply list_elem_of_In.
  - by apply bool_decide_eq_true_2.
Qed.

(** An operator whose state does not await a receipt is ignored. *)
Lemma upload_ignored (sender : Z) (up : Upload) (w : World) :
  (∀ id, ¬ awaits w sender id) →
  run (handleScreenshotUpload config net sender up) w = ((), w).
Proof.
  intros Hno. unfold handleScreenshotUpload. simpl.
  destruct (userStates w !! sender) as [st|] eqn:Hst; [|done].
  destruct (awaitingScreenshot st) eqn:Haw; simpl; [|done].
  destruct (currentTransactionId st) as [id|] eqn:Hid; simpl; [|done].
  case_bool_decide as Hempty; simpl; [done|].
  exfalso. apply (Hno id). exists st. done.
Qed.

(** C3 (as the code has it).  [handleScreenshotUpload] is gated by the
    in-memory state of the submitting operator and never reads the row: (1)
    an operator whose state does not await a receipt, the assigned operator
    or not, is ignored: no reply, no change to the store or to any state; (2)
    when the state awaits a receipt for a transaction, whatever the status of
    its row, and the file arrives and is written to the upload directory,
    the operator is on record and no receipt is stored yet, then the receipt
    row is stored under the transaction, the status becomes COMPLETED, the
    assigned operator stays, the state returns to idle and the operator is
    told so; (3) when a receipt is already stored for the transaction the
    upload fails and the store is as before; (4) when the file cannot be
    written (the disk refuses it, or its name has a slash, as for a file
    path without extension), the operator is told of an upload error and the
    store and the states are as before. *)
Theorem upload_gated_by_operator_state (sender : Z) (up : Upload) (w : World) :
  ((∀ id, ¬ awaits w sender id) →
     run (handleScreenshotUpload config net sender up) w = ((), w))
  ∧ (∀ id t user path,
       awaits w sender id →
       db_transaction w !! id = Some t →
       find_user sender (db_user w) = Some user →
       db_screenshot w !! id = None →
       up_file up = Fulfilled (Some path) → path ≠ "" → up_download_ok up = true →
       up_write_ok up = true → has_slash (receipt_name up id path) = false →
       let w' := snd (run (handleScreenshotUpload config net sender up) w) in
       status_of w' id = Some COMPLETED
       ∧ operator_of w' id = operator_of w id
       ∧ db_screenshot w' !! id
         = Some {| shot_path := receipt_name up id path;
                   shot_transactionId := id; shot_userId := user_id user |}
       ∧ userStates w' !! sender = Some idleState
       ∧ EvReply sender MsgScreenshotUploaded ∈ outbox w')
  ∧ (∀ id shot,
       awaits w sender id → db_screenshot w !! id = Some shot →
       let w' := snd (run (handleScreenshotUpload config net sender up) w) in
       db_transaction w' = db_transaction w
       ∧ db_screenshot w' = db_screenshot w
       ∧ userStates w' = userStates w)
  ∧ (∀ id path,
       awaits w sender id →
       up_file up = Fulfilled (Some path) → path ≠ "" → up_download_ok up = true →
       up_write_ok up = false ∨ has_slash (receipt_name up id path) = true →
       run (handleScreenshotUpload config net sender up) w
       = ((), emit (EvReply sender MsgUploadError) w)).
Proof.
  split; [apply upload_ignored|]. split; [|split].
  - intros id t user path (st & Hst & Haw & Hid & Hne) Ht Hu Hshot Hfile Hpath Hok
      Hwrite Hflat.
    cbv zeta. unfold handleScreenshotUpload, status_of, operator_of.
    unfold receipt_name in Hflat. simpl.
    rewrite Hst, Haw, Hid. simpl.
    rewrite (bool_decide_eq_false_2 (id = "")) by done. simpl.
    rewrite Hfile. simpl.
    rewrite (bool_decide_eq_false_2 (path = "")) by done. simpl.
    rewrite Hok. simpl. rewrite Hwrite, Hflat. simpl. rewrite Hu. simpl.
    rewrite Hshot, Ht.
    rewrite (user_on_record user (db_user w)) by (by apply find_user_Some in Hu as [? _]).
    simpl. rewrite Ht. simpl.
    assert (Hin : ∀ l : list Event,
              EvReply sender MsgScreenshotUploaded
              ∈ (outbox w ++ [EvReply sender MsgScreenshotUploaded]) ++ l)
      by set_solver.
    case_bool_decide as Hadmin; simpl;
      [destruct (delivers net (ADMIN_TELEGRAM_ID config)); simpl|];
      rewrite ?lookup_insert_eq; unfold receipt_name; simpl;
      repeat split; try done;
      first [apply (Hin [EvAdminNotice id]) | apply (Hin []) | idtac];
      try (rewrite <- (app_nil_r (_ ++ [EvReply sender MsgScreenshotUploaded]));
           apply (Hin [])).
  - intros id shot (st & Hst & Haw & Hid & Hne) Hshot.
    cbv zeta. unfold handleScreenshotUpload. simpl.
    rewrite Hst, Haw, Hid. simpl.
    rewrite (bool_decide_eq_false_2 (id = "")) by done. simpl.
    destruct (up_file up) as [[path|]|]; simpl; try done.
    case_bool_decide; simpl; [done|].
    destruct (up_download_ok up); simpl; [|done].
    destruct (up_write_ok up && negb (has_slash _)); simpl; [|done].
    destruct (find_user sender (db_user w)); simpl; [|done].
    rewrite Hshot. simpl. done.
  - intros id path (st & Hst & Haw & Hid & Hne) Hfile Hpath Hok Hfail.
    unfold receipt_name in Hfail. unfold handleScreenshotUpload. simpl.
    rewrite Hst, Haw, Hid. simpl.
    rewrite (bool_decide_eq_false_2 (id = "")) by done. simpl.
    rewrite Hfile. simpl.
    rewrite (bool_decide_eq_false_2 (path = "")) by done. simpl.
    rewrite Hok. simpl.
    destruct Hfail as [-> | ->]; simpl; [done|]. by rewrite andb_false_r.
Qed.

End Confirmation.

(** The timer reads the pending row, operator 7 accepts, the timer writes:
    the row is EXPIRED while the state of operator 7 awaits the receipt. *)
Lemma awaits_world_expired_late : awaits world_expired_late 7 txA.
Proof.
  exists (awaitingScreenshotFor txA). vm_compute. repeat split; discriminate.
Qed.

(** Operator 7 holds the transaction, whose row the timer has meanwhile set
    to EXPIRED, and sends the receipt: it is stored and the transaction
    completes.  Operator 8, whose state awaits nothing, is ignored. *)
Lemma upload_gated_by_operator_state_witness :
  status_of world_expired_late txA = Some EXPIRED
  ∧ status_of (snd (run (handleScreenshotUpload config0 everything_delivered 7 photo_ok)
                      world_expired_late)) txA = Some COMPLETED
  ∧ run (handleScreenshotUpload config0 everything_delivered 8 photo_ok) world_accepted
    = ((), world_accepted).
Proof.
  pose proof (upload_gated_by_operator_state config0 everything_delivered 7 photo_ok
                world_expired_late) as (_ & Hok & _).
  pose proof (upload_gated_by_operator_state config0 everything_delivered 8 photo_ok
                world_accepted) as (Hignored & _ & _).
  split; [vm_compute; reflexivity|]. split.
  - refine (proj1 (Hok txA (with_status EXPIRED
                              (accepted_by "u-1" "4276123456789012" txA_row))
                     operator1 "photos/file_1.jpg" _ _ _ _ _ _ _ _ _));
      try (vm_compute; reflexivity); try discriminate.
    apply awaits_world_expired_late.
  - apply Hignored. intros id (st & Hst & _). vm_compute in Hst. discriminate.
Defined.

(** C3, the claim as stated, fails.  (1) Operator 8 is not the assigned
    operator of the accepted transaction and submits a receipt: the handler
    returns without any reply, so no Unauthorized failure is reported (the
    status does stay ACCEPTED).  (2) The row is EXPIRED, not ACCEPTED, while
    the state of operator 7 awaits the receipt (the timer fired while the
    acceptance was in flight): the submission is not refused as stale, it is
    answered "uploaded" and takes the row to COMPLETED. *)
Lemma confirmProof_counterexample :
  (operator_of world_accepted txA = Some (user_id operator1)
   ∧ find_user 8 (db_user world_accepted) = Some operator2
   ∧ replies (snd (run (handleScreenshotUpload config0 everything_delivered 8 photo_ok)
                     world_accepted))
     = replies world_accepted
   ∧ status_of (snd (run (handleScreenshotUpload config0 everything_delivered 8 photo_ok)
                       world_accepted)) txA = Some ACCEPTED)
  ∧ (status_of world_expired_late txA = Some EXPIRED
     ∧ replies (snd (run (handleScreenshotUpload config0 everything_delivered 7 photo_ok)
                       world_expired_late))
       = replies world_expired_late ++ [(7%Z, MsgScreenshotUploaded)]
     ∧ condition MsgScreenshotUploaded = None
     ∧ status_of (snd (run (handleScreenshotUpload config0 everything_delivered 7
                              photo_ok) world_expired_late)) txA
       = Some COMPLETED).
Proof. vm_compute. repeat split; reflexivity. Qed.

(** Case analysis on every branch a handler can take. *)
Ltac crunch :=
  repeat first
    [ progress simplify_eq
    | progress simpl in *
    | match goal with
      | |- context [if ?b then _ else _] => destruct b eqn:?
      end
    | case_match ].

(** ** Callback notifications *)

Section Callbacks.

Context (config : Config) (net : Network).

Lemma callbacks_app (l1 l2 : list Event) :
  List.filter is_callback (l1 ++ l2)
  = List.filter is_callback l1 ++ List.filter is_callback l2.
Proof. apply List.filter_app. Qed.

Ltac no_callback :=
  unfold callbacks; crunch;
  rewrite ?callbacks_app; simpl; rewrite ?app_nil_r; try done.

(** Completion by a receipt sends no callback, whatever the world. *)
Lemma upload_sends_no_callback (sender : Z) (up : Upload) (w : World) :
  callbacks (snd (run (handleScreenshotUpload config net sender up) w)) = callbacks w.
Proof. unfold handleScreenshotUpload. no_callback. Qed.

(** Cancellation sends no callback, whatever the world. *)
Lemma cancel_sends_no_callback (sender : Z) (w : World) :
  callbacks (snd (run (cancel_action sender) w)) = callbacks w.
Proof. unfold cancel_action, showMainMenu. no_callback. Qed.

End Callbacks.

(** C4 fails on the code.  The transaction of the scenario was created with
    a callback address.  It reaches COMPLETED and no callback has been sent;
    created for an amount no operator covers, it reaches FAILED and no
    callback has been sent; cancelled after acceptance, it reaches CANCELLED
    and no callback has been sent.  Only the expiry timer posts one. *)
Theorem terminal_states_without_callback :
  (db_transaction world_completed !! txA ≫= tx_callbackUrl
   = Some "https://api.example.com/callback"
   ∧ status_of world_completed txA = Some COMPLETED
   ∧ callbacks world_completed = [])
  ∧ (status_of world_failed txA = Some FAILED ∧ callbacks world_failed = [])
  ∧ (status_of (serial config0 everything_delivered
                  [BotUpdate 7 (Some "op1") "u-x" "u-y" CancelButton] world_accepted) txA
     = Some CANCELLED
     ∧ callbacks (serial config0 everything_delivered
                    [BotUpdate 7 (Some "op1") "u-x" "u-y" CancelButton] world_accepted)
       = [])
  ∧ (status_of world_expired txA = Some EXPIRED
     ∧ callbacks world_expired = [EvCallback "https://api.example.com/callback" txA 3]).
Proof. vm_compute. repeat split; reflexivity. Qed.

(** ** Terminal states under handlers run one after another *)

Section Serial.

Context (config : Config) (net : Network).

Lemma status_of_insert (w w' : World) (id id' : string) (t : Transaction) :
  db_transaction w' = <[id := t]> (db_transaction w) →
  status_of w' id' = if decide (id = id') then Some (tx_status t) else status_of w id'.
Proof.
  intros Hdb. unfold status_of. rewrite Hdb, lookup_insert.
  by destruct (decide (id = id')).
Qed.

(** A write of a handler keeps the bookkeeping and never touches a terminal
    row. *)
Lemma core_step_sound (w w' : World) :
  consistent w → core_step w w' →
  consistent w'
  ∧ (∀ id s, status_of w id = Some s → terminal s = true → status_of w' id = Some s).
Proof.
  intros [Hacc Huniq] Hstep.
  destruct Hstep as [Hdb Hus|op st Hnone Hdb Hus|t Hfresh Hdb Hus
                    |id t s Ht Hpend Hdb Hus|op id userId dest t Ht Hpend Hdb Hus
                    |op st id t s Hst Hcur Ht Hdb Hus].
  - split; [split|].
    + intros op st id. unfold status_of. rewrite Hus, Hdb. apply Hacc.
    + intros op1 op2 st1 st2 id. rewrite Hus. apply Huniq.
    + intros id s. unfold status_of. by rewrite Hdb.
  - split; [split|].
    + intros op' st' id. unfold status_of. rewrite Hus, Hdb, lookup_insert.
      destruct (decide (op = op')) as [<-|Hne]; [congruence|]. apply Hacc.
    + intros op1 op2 st1 st2 id. rewrite Hus, !lookup_insert.
      destruct (decide (op = op1)), (decide (op = op2)); try congruence.
      apply Huniq.
    + intros id s. unfold status_of. by rewrite Hdb.
  - assert (Hother : ∀ id s, status_of w id = Some s → status_of w' id = Some s).
    { intros id s Hs. rewrite (status_of_insert w w' _ id t Hdb).
      destruct (decide (tx_id t = id)) as [<-|]; [|done].
      unfold status_of in Hs. by rewrite Hfresh in Hs. }
    split; [split|].
    + intros op st id. rewrite Hus. intros Hst Hcur. apply Hother. eauto.
    + intros op1 op2 st1 st2 id. rewrite Hus. apply Huniq.
    + intros id s Hs _. by apply Hother.
  - assert (Hother : ∀ id' s', status_of w id' = Some s' → s' ≠ PENDING →
                               status_of w' id' = Some s').
    { intros id' s' Hs Hne. rewrite (status_of_insert w w' _ id' _ Hdb).
      destruct (decide (id = id')) as [<-|]; [|done].
      unfold status_of in Hs. rewrite Ht in Hs. simpl in Hs. congruence. }
    split; [split|].
    + intros op st id'. rewrite Hus. intros Hst Hcur. apply Hother; [eauto|done].
    + intros op1 op2 st1 st2 id'. rewrite Hus. apply Huniq.
    + intros id' s' Hs Hterm. apply Hother; [done|]. by intros ->.
  - assert (Hother : ∀ id' s', status_of w id' = Some s' → s' ≠ PENDING →
                               status_of w' id' = Some s').
    { intros id' s' Hs Hne. rewrite (status_of_insert w w' _ id' _ Hdb).
      destruct (decide (id = id')) as [<-|]; [|done].
      unfold status_of in Hs. rewrite Ht in Hs. simpl in Hs. congruence. }
    assert (Hfree : ∀ op' st', userStates w !! op' = Some st' →
                               currentTransactionId st' ≠ Some id).
    { intros op' st' Hst' Hcur. specialize (Hacc _ _ _ Hst' Hcur).
      unfold status_of in Hacc. rewrite Ht in Hacc. simpl in Hacc. congruence. }
    split; [split|].
    + intros op' st' id'. rewrite Hus, lookup_insert.
      destruct (decide (op = op')) as [<-|Hne].
      * intros [= <-] [= <-]. rewrite (status_of_insert w w' _ id _ Hdb).
        by rewrite decide_True.
      * intros Hst' Hcur. apply Hother; [eauto|done].
    + intros op1 op2 st1 st2 id'. rewrite Hus, !lookup_insert.
      destruct (decide (op = op1)) as [<-|], (decide (op = op2)) as [<-|]; try done.
      * intros [= <-] Hst2 [= <-] Hcur. by destruct (Hfree _ _ Hst2).
      * intros Hst1 [= <-] Hcur [= <-]. by destruct (Hfree _ _ Hst1).
      * apply Huniq.
    + intros id' s' Hs Hterm. apply Hother; [done|]. by intros ->.
  - pose proof (Hacc _ _ _ Hst Hcur) as Hid.
    assert (Hother : ∀ id' s', status_of w id' = Some s' → s' ≠ ACCEPTED →
                               status_of w' id' = Some s').
    { intros id' s' Hs Hne. rewrite (status_of_insert w w' _ id' _ Hdb).
      destruct (decide (id = id')) as [<-|]; [|done]. congruence. }
    split; [split|].
    + intros op' st' id'. rewrite Hus, lookup_insert.
      destruct (decide (op = op')) as [<-|Hne]; [by intros [= <-]|].
      intros Hst' Hcur'.
      rewrite (status_of_insert w w' _ id' _ Hdb).
      destruct (decide (id = id')) as [<-|]; [|eauto].
      destruct Hne. eapply Huniq; eauto.
    + intros op1 op2 st1 st2 id'. rewrite Hus, !lookup_insert.
      destruct (decide (op = op1)) as [<-|], (decide (op = op2)) as [<-|]; try done.
      * by intros [= <-].
      * by intros _ [= <-].
      * apply Huniq.
    + intros id' s' Hs Hterm. apply Hother; [done|]. by intros ->.
Qed.

Lemma core_steps_sound (w w' : World) :
  consistent w → rtc core_step w w' →
  consistent w'
  ∧ (∀ id s, status_of w id = Some s → terminal s = true → status_of w' id = Some s).
Proof.
  intros Hc Hsteps. induction Hsteps as [w|w w1 w2 Hstep Hrest IH]; [done|].
  destruct (core_step_sound w w1 Hc Hstep) as [Hc1 Hkeep1].
  destruct (IH Hc1) as [Hc2 Hkeep2]. split; [done|].
  intros id s Hs Hterm. apply Hkeep2; [|done]. by apply Hkeep1.
Qed.


Ltac core_leaf :=
  first
    [ apply rtc_refl
    | apply rtc_once; first
        [ by eapply core_same
        | solve [eapply core_mode; [|reflexivity|reflexivity]; reflexivity]
        | solve [eapply core_resolve; eauto]
        | solve [eapply core_accept; eauto]
        | solve [eapply core_finish; eauto] ] ].

Ltac current_id :=
  match goal with
  | H : context [currentTransactionId ?u] |- _ =>
      destruct (currentTransactionId u) eqn:?; simpl in *;
      rewrite ?orb_true_r in *; try discriminate
  end.

Lemma upload_core (sender : Z) (up : Upload) (w : World) :
  rtc core_step w (snd (run (handleScreenshotUpload config net sender up) w)).
Proof.
  unfold handleScreenshotUpload, uploadFailed.
  crunch; try core_leaf; current_id; core_leaf.
Qed.

Lemma cancel_core (sender : Z) (w : World) :
  rtc core_step w (snd (run (cancel_action sender) w)).
Proof.
  unfold cancel_action, showMainMenu.
  crunch; try core_leaf.
  destruct (userStates w !! sender) as [st|] eqn:Hst; simpl in *; [|done].
  destruct (currentTransactionId st) as [id|] eqn:Hid; simpl in *; [|done].
  core_leaf.
Qed.

Lemma accept_core (sender : Z) (id dest : string) (w : World) :
  rtc core_step w (snd (run (handleAcceptPayout sender id dest) w)).
Proof.
  unfold handleAcceptPayout.
  crunch; try core_leaf.
  all: try (match goal with H : bool_decide _ = true |- _ =>
              apply bool_decide_eq_true in H end; core_leaf).
Qed.

Lemma ap_core (sender : Z) (shortId : string) (w : World) :
  rtc core_step w (snd (run (ap sender shortId) w)).
Proof.
  unfold ap.
  cbn [run effect getFullTransactionId fst snd].
  destruct (negb (truthy (transactionMappings w !! shortId))); [apply rtc_once; by eapply core_same|].
  cbn [run effect transaction_findUnique].
  destruct (db_transaction w !! default "" (transactionMappings w !! shortId));
    [apply accept_core|apply rtc_once; by eapply core_same].
Qed.

Lemma expire_core (id url : string) (w : World) :
  rtc core_step w (snd (run (expire net id url) w)).
Proof.
  unfold expire.
  crunch; try core_leaf.
  all: try (match goal with H : bool_decide _ = true |- _ =>
              apply bool_decide_eq_true in H end; core_leaf).
Qed.

Lemma set_balance_core (ctx : Ctx) (w : World) :
  rtc core_step w (snd (run (set_balance ctx) w)).
Proof. unfold set_balance. crunch; core_leaf. Qed.

Lemma add_operator_core (ctx : Ctx) (w : World) :
  rtc core_step w (snd (run (add_operator ctx) w)).
Proof. unfold add_operator. crunch; core_leaf. Qed.

Lemma handleMessage_core (sender : Z) (text : Text) (uuid : string) (w : World) :
  rtc core_step w (snd (run (handleMessage sender text uuid) w)).
Proof.
  unfold handleMessage, handleBalanceInput, handleOperatorInput, showMainMenu.
  crunch; core_leaf.
Qed.

Lemma dispatch_core (ctx : Ctx) (uuid : string) (u : Update) (w : World) :
  rtc core_step w (snd (run (dispatch config net ctx uuid u) w)).
Proof.
  destruct u; cbn [dispatch].
  - apply ap_core.
  - apply accept_core.
  - apply upload_core.
  - apply handleMessage_core.
  - apply cancel_core.
  - apply set_balance_core.
  - apply add_operator_core.
Qed.

Lemma middleware_core (sender : Z) (username : option string) (uuid1 : string)
    (next : Ctx → Prog unit) (w : World) :
  (∀ ctx w1, rtc core_step w1 (snd (run (next ctx) w1))) →
  rtc core_step w (snd (run (middleware config sender username uuid1 next) w)).
Proof.
  intros Hnext. unfold middleware.
  cbn [run effect user_findUnique].
  destruct (find_user sender (db_user w)); [apply Hnext|].
  destruct (negb (bool_decide (sender = ADMIN_TELEGRAM_ID config))); [|apply Hnext].
  cbn [run effect user_create].
  match goal with |- context [existsb ?f ?l] => destruct (existsb f l) end;
    cbn [run]; [apply rtc_refl|].
  eapply rtc_l; [|apply Hnext]. by eapply core_same.
Qed.

Lemma create_core (body : CreateBody) (uuid : string) (w : World) :
  rtc core_step w (snd (run (create config net body uuid) w)).
Proof.
  unfold create.
  destruct (negb (validateBankId (walletId body))); [apply rtc_refl|].
  destruct (negb (validateAmount config (amount body))); [apply rtc_refl|].
  destruct (negb (validateTimes (expiredTime body) (expiredOfferTime body)));
    [apply rtc_refl|].
  cbn [run effect transaction_create tx_id].
  destruct (db_transaction w !! generateUniqueId uuid) eqn:Hfresh; [apply rtc_refl|].
  cbn [run effect user_findMany].
  match goal with
  | |- context [set_transactions (insert ?i ?t) w] =>
      set (w1 := set_transactions (insert i t) w);
      assert (Hcreate : core_step w w1) by (by eapply (core_create w w1 t));
      assert (Hlook : db_transaction w1 !! i = Some t) by apply lookup_insert_eq
  end.
  eapply rtc_l; [exact Hcreate|].
  destruct (Nat.eqb _ 0).
  - cbn [run effect transaction_update]. rewrite Hlook.
    cbn [run snd]. apply rtc_once.
    eapply core_resolve; [exact Hlook|done|done|done].
  - rewrite run_notifyOperators.
    match goal with
    | |- context [notified net ?i ?d ?ops w1] =>
        destruct (notified_frame net i d ops w1) as (Htx & _ & _ & Hus & _ & _);
        remember (notified net i d ops w1) as w2 eqn:Hw2
    end.
    cbn [run effect setTimeout snd]. apply rtc_once. by eapply core_same.
Qed.

Lemma perform_core (a : Action) (w : World) :
  rtc core_step w (snd (run (perform config net a) w)).
Proof.
  destruct a as [body uuid|id url|sender username uuid1 uuid2 u]; cbn [perform].
  - rewrite run_bind. destruct (run (create config net body uuid) w) as [r w1] eqn:Hrun.
    cbn [run snd]. change w1 with (snd (r, w1)). rewrite <- Hrun. apply create_core.
  - apply expire_core.
  - apply middleware_core. intros ctx w1. apply dispatch_core.
Qed.


Lemma consistent_at_start (w : World) : userStates w = ∅ → consistent w.
Proof.
  intros Hempty. split.
  - intros op st id. by rewrite Hempty, lookup_empty.
  - intros op1 op2 st1 st2 id. by rewrite Hempty, lookup_empty.
Qed.

Lemma serial_sound (actions : list Action) (w : World) :
  consistent w →
  consistent (serial config net actions w)
  ∧ (∀ id s, status_of w id = Some s → terminal s = true →
       status_of (serial config net actions w) id = Some s).
Proof.
  revert w. induction actions as [|a actions IH]; intros w Hc; [done|].
  unfold serial. cbn [foldl]. fold (serial config net actions).
  destruct (core_steps_sound w _ Hc (perform_core a w)) as [Hc1 Hkeep1].
  destruct (IH _ Hc1) as [Hc2 Hkeep2]. split; [done|].
  intros id s Hs Hterm. apply Hkeep2; [|done]. by apply Hkeep1.
Qed.

Lemma accept_not_pending (sender : Z) (id dest : string) (w : World)
    (s : TransactionStatus) :
  status_of w id = Some s → s ≠ PENDING →
  run (handleAcceptPayout sender id dest) w = ((), emit (EvReply sender MsgNotActive) w).
Proof.
  unfold status_of, handleAcceptPayout. simpl.
  destruct (db_transaction w !! id) as [t|]; simpl; [|done].
  intros [= <-] Hne. by rewrite bool_decide_eq_false_2.
Qed.

(** C2 (as the code has it).  Start the process (no operator state yet) and
    let handlers run one after another, each from start to end.  Once a
    transaction is in a terminal state, (1) no later creation request, timer
    or bot update changes its status; (2) no operator's state points at it,
    so no receipt and no cancel button can address it: both handlers return
    without touching it (and without a stale-state reply); (3) an accept on
    it replies that the request is no longer active, a stale-state failure,
    and changes nothing else; (4) its timer returns having changed
    nothing. *)
Theorem terminal_is_final_when_serial (w0 : World) (before after : list Action)
    (id : string) (s : TransactionStatus) :
  userStates w0 = ∅ →
  status_of (serial config net before w0) id = Some s →
  terminal s = true →
  status_of (serial config net (before ++ after) w0) id = Some s
  ∧ (∀ op st, userStates (serial config net before w0) !! op = Some st →
       currentTransactionId st ≠ Some id)
  ∧ (∀ sender dest,
       run (handleAcceptPayout sender id dest) (serial config net before w0)
       = ((), emit (EvReply sender MsgNotActive) (serial config net before w0))
       ∧ condition MsgNotActive = Some StaleState)
  ∧ (∀ url, run (expire net id url) (serial config net before w0)
            = ((), serial config net before w0)).
Proof.
  intros Hstart Hs Hterm.
  destruct (serial_sound before w0 (consistent_at_start w0 Hstart)) as [Hc1 _].
  destruct (serial_sound after _ Hc1) as [_ Hkeep].
  split; [|split; [|split]].
  - unfold serial in *. rewrite foldl_app. by apply Hkeep.
  - intros op st Hst Hcur. destruct Hc1 as [Hacc _].
    specialize (Hacc _ _ _ Hst Hcur). rewrite Hs in Hacc. by simplify_eq.
  - intros sender dest. split; [|done].
    apply (accept_not_pending _ _ _ _ s); [done|]. by intros ->.
  - intros url. apply expire_not_pending. rewrite Hs. intros [= ->]. done.
Qed.

End Serial.

(** The completed transaction of the scenario: two more updates from the
    operators and the timer leave it COMPLETED, and a late accept is told the
    request is no longer active. *)
Lemma terminal_is_final_when_serial_witness :
  let before :=
    [ CreateRequest body500 uuidA;
      BotUpdate 7 (Some "op1") "u-x" "u-y" (ApButton "TX_550e8400");
      BotUpdate 7 (Some "op1") "u-x" "u-y" (PhotoOrDocument photo_ok) ] in
  let after :=
    [ BotUpdate 7 (Some "op1") "u-x" "u-y" CancelButton;
      BotUpdate 8 (Some "op2") "u-x" "u-y" (PhotoOrDocument photo_ok);
      TimerFires txA "https://api.example.com/callback" ] in
  status_of (serial config0 everything_delivered before world0) txA = Some COMPLETED
  ∧ status_of (serial config0 everything_delivered (before ++ after) world0) txA
    = Some COMPLETED
  ∧ run (handleAcceptPayout 8 txA "4276123456789012")
      (serial config0 everything_delivered before world0)
    = ((), emit (EvReply 8 MsgNotActive)
             (serial config0 everything_delivered before world0)).
Proof.
  cbv zeta.
  assert (Hbefore : status_of
            (serial config0 everything_delivered
               [ CreateRequest body500 uuidA;
                 BotUpdate 7 (Some "op1") "u-x" "u-y" (ApButton "TX_550e8400");
                 BotUpdate 7 (Some "op1") "u-x" "u-y" (PhotoOrDocument photo_ok) ]
               world0) txA = Some COMPLETED) by (vm_compute; reflexivity).
  pose proof (terminal_is_final_when_serial config0 everything_delivered world0
                [ CreateRequest body500 uuidA;
                  BotUpdate 7 (Some "op1") "u-x" "u-y" (ApButton "TX_550e8400");
                  BotUpdate 7 (Some "op1") "u-x" "u-y" (PhotoOrDocument photo_ok) ]
                [ BotUpdate 7 (Some "op1") "u-x" "u-y" CancelButton;
                  BotUpdate 8 (Some "op2") "u-x" "u-y" (PhotoOrDocument photo_ok);
                  TimerFires txA "https://api.example.com/callback" ]
                txA COMPLETED eq_refl Hbefore eq_refl) as (Hkeep & _ & Haccept & _).
  split; [exact Hbefore|]. split; [exact Hkeep|].
  exact (proj1 (Haccept 8%Z "4276123456789012")).
Defined.

(** C2, the claim as stated, fails twice.  (1) On the completed transaction
    the operator presses the cancel button and sends the receipt again: the
    first is answered "action cancelled" and the main menu, the second is not
    answered at all; neither is a stale-state failure.  (2) When the timer
    has read the row before the accept and writes after it, the transaction
    is EXPIRED, a terminal state, while the operator's state still awaits the
    receipt; the receipt then takes it from EXPIRED to COMPLETED. *)
Lemma terminal_state_counterexample :
  (status_of world_completed txA = Some COMPLETED
   ∧ replies (serial config0 everything_delivered
                [BotUpdate 7 (Some "op1") "u-x" "u-y" CancelButton] world_completed)
     = replies world_completed ++ [(7%Z, MsgActionCancelled); (7%Z, MsgMainMenu)]
   ∧ replies (serial config0 everything_delivered
                [BotUpdate 7 (Some "op1") "u-x" "u-y" (PhotoOrDocument photo_ok)]
                world_completed)
     = replies world_completed
   ∧ condition MsgActionCancelled = None ∧ condition MsgMainMenu = None)
  ∧ (status_of (snd (exec true timer_straddles_accept timer_accept_upload world_pending))
       txA = Some EXPIRED
     ∧ status_of (snd (exec true (timer_straddles_accept ++ then_upload)
                         timer_accept_upload world_pending)) txA
       = Some COMPLETED).
Proof. vm_compute. repeat split; reflexivity. Qed.

Section Race.

Context (net : Network) (id : string).




Section RaceInvariant.

Context (w0 : World).











End RaceInvariant.














End Race.

(** ** The acceptance race on the scenario *)

Example world_pending_row : db_transaction world_pending !! txA = Some txA_row.
Proof. vm_compute. reflexivity. Qed.



(** What the indivisibility of the transaction block is needed for.  When
    the statements of two blocks interleave (both re-read the row before
    either updates it), both operators are told the acceptance and the
    second update overwrites the operator of the first. *)
Lemma two_acceptances_when_blocks_interleave :
  acceptances (replies (snd (exec false both_read_then_both_write two_accepts
                               world_pending)))
  = [ (7%Z, MsgAccepted "4276123456789012"); (8%Z, MsgAccepted "4276123456789012") ]
  ∧ operator_of (snd (exec false both_read_then_both_write two_accepts world_pending))
      txA = Some "u-2".
Proof. vm_compute. split; reflexivity. Qed.

(** * Further properties of the code *)

(** ** Validation and failure of a creation request *)

Section MoreCreation.

Context (config : Config) (net : Network).

Lemma lt_spec (a b : Number) : lt a b = true ↔ (a < b)%Qc.
Proof. unfold lt. apply bool_decide_eq_true. Qed.

(** [validateTimes] accepts exactly [0 < expiredTime < expiredOfferTime]; its
    third test never decides. *)
Lemma validateTimes_spec (a b : Number) :
  validateTimes a b = true ↔ (num 0 < a ∧ a < b)%Qc.
Proof.
  unfold validateTimes. rewrite !andb_true_iff, !lt_spec. split.
  - intros [[Hab Ha] _]. done.
  - intros [Ha Hab]. repeat split; try done. by etrans.
Qed.

Lemma create_code_valid (body : CreateBody) (uuid : string) (w : World) :
  valid_request config body = true →
  code (fst (run (create config net body uuid) w)) ≠ 400%Z.
Proof.
  unfold valid_request. rewrite !andb_true_iff. intros [[Hb Ha] Ht].
  unfold create. rewrite Hb, Ha, Ht. simpl.
  destruct (db_transaction w !! generateUniqueId uuid); simpl; [done|].
  destruct (Nat.eqb _ 0); simpl.
  - rewrite lookup_insert_eq. simpl. done.
  - rewrite run_notifyOperators. simpl. done.
Qed.

(** X1.  [create] answers with code 400 exactly when the bank id is not
    supported, the amount is outside the configured interval or the
    timestamps are not [0 < expiredTime < expiredOfferTime]; the reason
    given is that of the first failing test in this order; and such a
    request leaves the whole world as it was, with an empty id and status 2
    in the answer. *)
Theorem create_validation (body : CreateBody) (uuid : string) (w : World) :
  (code (fst (run (create config net body uuid) w)) = 400%Z
   ↔ valid_request config body = false)
  ∧ (valid_request config body = false →
     run (create config net body uuid) w
     = (validationError
          (if negb (validateBankId (walletId body)) then UnsupportedMethod
           else if negb (validateAmount config (amount body)) then AmountOutOfRange
           else BadTimestamps), w))
  ∧ (validateTimes (expiredTime body) (expiredOfferTime body) = true
     ↔ (num 0 < expiredTime body ∧ expiredTime body < expiredOfferTime body)%Qc).
Proof.
  assert (Hinvalid : valid_request config body = false →
    run (create config net body uuid) w
    = (validationError
         (if negb (validateBankId (walletId body)) then UnsupportedMethod
          else if negb (validateAmount config (amount body)) then AmountOutOfRange
          else BadTimestamps), w)).
  { unfold valid_request, create.
    destruct (validateBankId (walletId body)); simpl; [|done].
    destruct (validateAmount config (amount body)); simpl; [|done].
    destruct (validateTimes _ _); simpl; done. }
  split; [|split; [exact Hinvalid|apply validateTimes_spec]].
  split.
  - intros Hcode. destruct (valid_request config body) eqn:Hv; [|done].
    by destruct (create_code_valid body uuid w Hv).
  - intros Hv. rewrite (Hinvalid Hv). done.
Qed.

(** X2.  A valid request whose generated id is already the id of a row is
    answered with the internal error (code 500) and leaves the world as it
    was: the existing row is not overwritten, nobody is notified and no
    timer is armed. *)
Theorem create_id_taken (body : CreateBody) (uuid : string) (w : World)
    (t : Transaction) :
  valid_request config body = true →
  db_transaction w !! generateUniqueId uuid = Some t →
  run (create config net body uuid) w = (internalError, w).
Proof.
  unfold valid_request. rewrite !andb_true_iff. intros [[Hb Ha] Ht] Htaken.
  unfold create. rewrite Hb, Ha, Ht. simpl. by rewrite Htaken.
Qed.

(** X3.  The status query after a creation.  For a valid request with a
    fresh id, the query for the returned id answers code 0 with the amount
    of the request and nothing paid; it reports "in progress" (1, PENDING)
    when an operator was eligible and "failed" (3, FAILED) when none was. *)
Theorem status_after_create (body : CreateBody) (uuid : string) (w : World) :
  valid_request config body = true →
  db_transaction w !! generateUniqueId uuid = None →
  let id := generateUniqueId uuid in
  let w' := snd (run (create config net body uuid) w) in
  let report := payoutStatus id w' in
  sr_clientUniqueId report = id
  ∧ sr_code report = 0%Z
  ∧ sr_amount report = amount body
  ∧ sr_amountPaid report = num 0
  ∧ (List.filter (eligible (amount body)) (db_user w) ≠ [] →
     sr_status report = 1%Z ∧ sr_reason report = ReasonStatus PENDING)
  ∧ (List.filter (eligible (amount body)) (db_user w) = [] →
     sr_status report = 3%Z ∧ sr_reason report = ReasonStatus FAILED).
Proof.
  unfold valid_request. rewrite !andb_true_iff. intros [[Hb Ha] Ht] Hfresh.
  cbv zeta. unfold create, payoutStatus. rewrite Hb, Ha, Ht. simpl.
  rewrite Hfresh. simpl.
  destruct (List.filter (eligible (amount body)) (db_user w)) as [|o ops] eqn:Hops.
  - simpl. rewrite lookup_insert_eq. simpl. rewrite lookup_insert_eq. simpl.
    repeat split; done.
  - cbn [length Nat.eqb]. rewrite run_notifyOperators.
    match goal with
    | |- context [notified net ?i ?d ?l ?w0] =>
        destruct (notified_frame net i d l w0) as (Htx & _ & _ & _ & _ & _);
        remember (notified net i d l w0) as w1 eqn:Hw1
    end.
    simpl in *. rewrite Htx, lookup_insert_eq. simpl.
    repeat split; done.
Qed.

End MoreCreation.

Lemma create_id_taken_witness :
  run (create config0 everything_delivered body500 uuidA) world_pending
  = (internalError, world_pending).
Proof.
  apply (create_id_taken config0 everything_delivered body500 uuidA world_pending
           txA_row).
  - reflexivity.
  - vm_compute. reflexivity.
Defined.

Lemma status_after_create_witness :
  sr_status (payoutStatus txA world_pending) = 1%Z
  ∧ sr_amount (payoutStatus txA world_pending) = num 500
  ∧ sr_amountPaid (payoutStatus txA world_pending) = num 0.
Proof.
  destruct (status_after_create config0 everything_delivered body500 uuidA world0)
    as (_ & _ & Hamount & Hpaid & Hsome & _); [reflexivity|reflexivity|].
  destruct Hsome as [Hst _]; [vm_compute; discriminate|].
  split; [exact Hst|]. split; [exact Hamount|exact Hpaid].
Defined.

Lemma create_validation_witness :
  run (create config0 everything_delivered body50 uuidA) world0
  = (validationError AmountOutOfRange, world0).
Proof.
  destruct (create_validation config0 everything_delivered body50 uuidA world0)
    as (_ & Hinvalid & _).
  apply Hinvalid. reflexivity.
Defined.

(** ** Receipts: the status query and the retrieval *)

Section Receipts.

Context (config : Config) (net : Network).

(** The store after a receipt went through. *)
Lemma upload_stores (sender : Z) (up : Upload) (w : World) (id path : string)
    (t : Transaction) (user : User) :
  awaits w sender id →
  db_transaction w !! id = Some t →
  find_user sender (db_user w) = Some user →
  db_screenshot w !! id = None →
  up_file up = Fulfilled (Some path) → path ≠ "" → up_download_ok up = true →
  up_write_ok up = true → has_slash (receipt_name up id path) = false →
  let w' := snd (run (handleScreenshotUpload config net sender up) w) in
  db_transaction w' = <[id := with_status COMPLETED t]> (db_transaction w)
  ∧ db_screenshot w'
    = <[id := {| shot_path := receipt_name up id path; shot_transactionId := id;
                 shot_userId := user_id user |}]> (db_screenshot w)
  ∧ db_user w' = db_user w.
Proof.
  intros (st & Hst & Haw & Hid & Hne) Ht Hu Hshot Hfile Hpath Hok Hwrite Hflat.
  cbv zeta. unfold handleScreenshotUpload. unfold receipt_name in Hflat. simpl.
  rewrite Hst, Haw, Hid. simpl.
  rewrite (bool_decide_eq_false_2 (id = "")) by done. simpl.
  rewrite Hfile. simpl.
  rewrite (bool_decide_eq_false_2 (path = "")) by done. simpl.
  rewrite Hok. simpl. rewrite Hwrite, Hflat. simpl. rewrite Hu. simpl.
  rewrite Hshot, Ht.
  rewrite (user_on_record user (db_user w)) by (by apply find_user_Some in Hu as [? _]).
  simpl. rewrite Ht. simpl.
  case_bool_decide; simpl; [destruct (delivers net (ADMIN_TELEGRAM_ID config))|];
    simpl; done.
Qed.

(** X4.  The status query after a receipt.  When an operator whose state
    awaits the receipt of a transaction sends a file that arrives, and no
    receipt is stored yet, the status query for that transaction reports
    "completed" (2), the full amount as paid, an empty reason and the stored
    file name of the receipt. *)
Theorem status_after_receipt (sender : Z) (up : Upload) (w : World) (id path : string)
    (t : Transaction) (user : User) :
  awaits w sender id →
  db_transaction w !! id = Some t →
  find_user sender (db_user w) = Some user →
  db_screenshot w !! id = None →
  up_file up = Fulfilled (Some path) → path ≠ "" → up_download_ok up = true →
  up_write_ok up = true → has_slash (receipt_name up id path) = false →
  let report :=
    payoutStatus id (snd (run (handleScreenshotUpload config net sender up) w)) in
  sr_code report = 0%Z
  ∧ sr_status report = 2%Z
  ∧ sr_amount report = tx_amount t
  ∧ sr_amountPaid report = tx_amount t
  ∧ sr_reason report = ReasonEmpty
  ∧ sr_screenshot report = receipt_name up id path.
Proof.
  intros Haw Ht Hu Hshot Hfile Hpath Hok Hwrite Hflat.
  destruct (upload_stores sender up w id path t user Haw Ht Hu Hshot Hfile Hpath Hok
              Hwrite Hflat)
    as (Hdb & Hsh & _).
  cbv zeta. unfold payoutStatus. rewrite Hdb, Hsh, !lookup_insert_eq. simpl. done.
Qed.

(** X5.  A file is served only when it is on disk, its name carries a
    transaction id, and the receipt stored for that transaction has exactly
    this name as its path; otherwise the answer is an error, 404 for a file
    not on disk whatever its name, 400 for a name without transaction id,
    404 for a name without matching receipt. *)
Theorem receipt_served_only_with_record (on_disk : string → bool) (filename : string)
    (w : World) :
  (∀ served contentType,
     payoutScreenshot on_disk filename w = ServeFile served contentType
     ↔ served = filename ∧ contentType = contentTypeOf filename
       ∧ on_disk filename = true
       ∧ ∃ id shot, match_tx_id filename = Some id
                    ∧ db_screenshot w !! id = Some shot
                    ∧ shot_path shot = filename)
  ∧ (on_disk filename = false →
     payoutScreenshot on_disk filename w = ScreenshotFailure ScreenshotNotFound 404)
  ∧ (on_disk filename = true → match_tx_id filename = None →
     payoutScreenshot on_disk filename w = ScreenshotFailure InvalidFilenameFormat 400)
  ∧ (∀ id, on_disk filename = true → match_tx_id filename = Some id →
     (∀ shot, db_screenshot w !! id = Some shot → shot_path shot ≠ filename) →
     payoutScreenshot on_disk filename w
     = ScreenshotFailure ScreenshotRecordNotFound 404).
Proof.
  unfold payoutScreenshot, screenshot_findFirst.
  split; [|split; [|split]].
  - intros served contentType. split.
    + destruct (on_disk filename); simpl; [|done].
      destruct (match_tx_id filename) as [id|]; [|done].
      destruct (db_screenshot w !! id) as [shot|] eqn:Hshot; [|done].
      case_bool_decide as Hpath; [|done].
      intros [= <- <-]. repeat split; try done. by exists id, shot.
    + intros (-> & -> & Hdisk & id & shot & Hm & Hshot & Hpath).
      rewrite Hdisk, Hm, Hshot. simpl. by rewrite bool_decide_eq_true_2.
  - by intros ->.
  - by intros -> ->.
  - intros id -> -> Hno. simpl.
    destruct (db_screenshot w !! id) as [shot|] eqn:Hshot; [|done].
    rewrite bool_decide_eq_false_2; [done|]. by apply Hno.
Qed.

Lemma span_run (p : ascii → bool) (u : string) (c : ascii) (r : string) :
  string_forall p u = true → p c = false →
  span p (u +:+ String c r) = (u, String c r).
Proof.
  intros Hu Hc. induction u as [|a u IH]; simpl in *.
  - by rewrite Hc.
  - apply andb_true_iff in Hu as [Ha Hu]. rewrite Ha, (IH Hu). done.
Qed.

Lemma match_tx_id_skip (c : ascii) (r : string) :
  c ≠ "T"%char → match_tx_id (String c r) = match_tx_id r.
Proof.
  intros Hc. simpl.
  destruct c as [[] [] [] [] [] [] [] []]; try done.
Qed.

Lemma match_tx_id_after_digits (ds rest : string) :
  string_forall is_digit ds = true →
  match_tx_id (ds +:+ rest) = match_tx_id rest.
Proof.
  intros Hds. induction ds as [|c ds IH]; [done|].
  simpl in Hds. apply andb_true_iff in Hds as [Hc Hds].
  change (String c ds +:+ rest) with (String c (ds +:+ rest)).
  rewrite match_tx_id_skip; [by apply IH|].
  intros ->. done.
Qed.

(** The expression finds the id in the name of a stored receipt. *)
Lemma match_tx_id_receipt (up : Upload) (id path : string) :
  generated_id id → string_forall is_digit (up_now up) = true →
  match_tx_id (receipt_name up id path) = Some id.
Proof.
  intros (u & -> & Hne & Hu) Hnow. unfold receipt_name.
  rewrite match_tx_id_after_digits by done.
  change ("_" +:+ ("TX_" +:+ u) +:+ "." +:+ fileExt path)
    with (String "_" (String "T" (String "X" (String "_"
            (u +:+ String "." (fileExt path)))))).
  rewrite match_tx_id_skip by done.
  cbn [match_tx_id]. rewrite span_run by done. simpl.
  destruct u; done.
Qed.

(** X6.  Round trip of a receipt.  For a transaction id of the generated
    form and a time stamp in digits: before the receipt is sent its file name
    is refused for want of a record; once the operator's receipt went
    through, the file, when it is on disk, is served under the name the
    status query reports. *)
Theorem receipt_round_trip (on_disk : string → bool) (sender : Z) (up : Upload)
    (w : World) (id path : string) (t : Transaction) (user : User) :
  generated_id id → string_forall is_digit (up_now up) = true →
  on_disk (receipt_name up id path) = true →
  awaits w sender id →
  db_transaction w !! id = Some t →
  find_user sender (db_user w) = Some user →
  db_screenshot w !! id = None →
  up_file up = Fulfilled (Some path) → path ≠ "" → up_download_ok up = true →
  up_write_ok up = true → has_slash (receipt_name up id path) = false →
  let w' := snd (run (handleScreenshotUpload config net sender up) w) in
  payoutScreenshot on_disk (receipt_name up id path) w
  = ScreenshotFailure ScreenshotRecordNotFound 404
  ∧ payoutScreenshot on_disk (sr_screenshot (payoutStatus id w')) w'
    = ServeFile (receipt_name up id path) (contentTypeOf (receipt_name up id path)).
Proof.
  intros Hid Hnow Hdisk Haw Ht Hu Hshot Hfile Hpath Hok Hwrite Hflat.
  destruct (upload_stores sender up w id path t user Haw Ht Hu Hshot Hfile Hpath Hok
              Hwrite Hflat)
    as (Hdb & Hsh & _).
  cbv zeta.
  remember (snd (run (handleScreenshotUpload config net sender up) w)) as w' eqn:Hw'.
  clear Hw'. split.
  - unfold payoutScreenshot, screenshot_findFirst.
    rewrite Hdisk, (match_tx_id_receipt up id path Hid Hnow). simpl.
    by rewrite Hshot.
  - unfold payoutStatus. rewrite Hdb, Hsh, !lookup_insert_eq. simpl.
    unfold payoutScreenshot, screenshot_findFirst.
    rewrite Hdisk, (match_tx_id_receipt up id path Hid Hnow). simpl.
    rewrite Hsh, lookup_insert_eq. simpl.
    by rewrite bool_decide_eq_true_2.
Qed.

End Receipts.

Lemma generated_id_txA : generated_id txA.
Proof.
  exists "550e8400-e29b-41d4-a716-446655440000". repeat split; done.
Qed.

Lemma awaits_world_accepted : awaits world_accepted 7 txA.
Proof.
  exists (awaitingScreenshotFor txA). vm_compute. repeat split; discriminate.
Qed.

Lemma status_after_receipt_witness :
  let report :=
    payoutStatus txA
      (snd (run (handleScreenshotUpload config0 everything_delivered 7 photo_ok)
              world_accepted)) in
  sr_code report = 0%Z
  ∧ sr_status report = 2%Z
  ∧ sr_amount report = num 500
  ∧ sr_amountPaid report = num 500
  ∧ sr_reason report = ReasonEmpty
  ∧ sr_screenshot report = receipt_name photo_ok txA "photos/file_1.jpg".
Proof.
  apply (status_after_receipt config0 everything_delivered 7 photo_ok world_accepted
           txA "photos/file_1.jpg" (accepted_by "u-1" "4276123456789012" txA_row)
           operator1);
    try (vm_compute; reflexivity); try discriminate.
  apply awaits_world_accepted.
Defined.

Lemma receipt_round_trip_witness :
  let w' := snd (run (handleScreenshotUpload config0 everything_delivered 7 photo_ok)
                   world_accepted) in
  payoutScreenshot (λ _, true) (receipt_name photo_ok txA "photos/file_1.jpg")
    world_accepted
  = ScreenshotFailure ScreenshotRecordNotFound 404
  ∧ payoutScreenshot (λ _, true) (sr_screenshot (payoutStatus txA w')) w'
    = ServeFile (receipt_name photo_ok txA "photos/file_1.jpg")
        (contentTypeOf (receipt_name photo_ok txA "photos/file_1.jpg")).
Proof.
  apply (receipt_round_trip config0 everything_delivered (λ _, true) 7 photo_ok
           world_accepted txA "photos/file_1.jpg"
           (accepted_by "u-1" "4276123456789012" txA_row) operator1);
    try (vm_compute; reflexivity); try discriminate.
  - apply generated_id_txA.
  - apply awaits_world_accepted.
Defined.

(** ** The lifecycle under serial execution *)

Lemma lt_false_le (a b : Number) : lt a b = false → (b ≤ a)%Qc.
Proof.
  unfold lt. intros H. apply bool_decide_eq_false in H.
  by apply Qcnot_lt_le.
Qed.

Ltac life_leaf :=
  first
    [ apply rtc_refl
    | apply rtc_once; first
        [ solve [eapply life_same; reflexivity]
        | solve [eapply life_state; [reflexivity|reflexivity|reflexivity|]; eauto; done]
        | solve [eapply life_resolve; [reflexivity|..]; eauto]
        | solve [eapply life_accept; [reflexivity|..]; eauto]
        | solve [eapply life_cancel; [reflexivity|..]; eauto]
        | solve [eapply life_receipt; [reflexivity|..]; eauto]
        | solve [eapply life_register; [reflexivity|..]; eauto]
        | solve [eapply life_balance; [reflexivity|..]; eauto using lt_false_le]
        | solve [eapply life_enrol; [reflexivity|..]; eauto]
        | solve [eapply life_enrol_new; [reflexivity|..]; eauto] ] ].

Ltac pointed_id :=
  match goal with
  | H : context [currentTransactionId ?u] |- _ =>
      destruct (currentTransactionId u) eqn:?; simpl in *;
      rewrite ?orb_true_r in *; try discriminate
  end.

Section Lifecycle.

Context (config : Config) (net : Network).

Lemma upload_life (sender : Z) (up : Upload) (w : World) :
  rtc (life_step config (Some sender)) w
    (snd (run (handleScreenshotUpload config net sender up) w)).
Proof.
  unfold handleScreenshotUpload, uploadFailed.
  crunch; try life_leaf; pointed_id; life_leaf.
Qed.

Lemma cancel_life (sender : Z) (w : World) :
  rtc (life_step config (Some sender)) w (snd (run (cancel_action sender) w)).
Proof.
  unfold cancel_action, showMainMenu.
  crunch; try life_leaf.
  destruct (userStates w !! sender) as [st|] eqn:Hst; simpl in *; [|done].
  destruct (currentTransactionId st) as [id|] eqn:Hid; simpl in *; [|done].
  life_leaf.
Qed.

Lemma accept_life (sender : Z) (id dest : string) (w : World) :
  rtc (life_step config (Some sender)) w (snd (run (handleAcceptPayout sender id dest) w)).
Proof.
  unfold handleAcceptPayout.
  crunch; try life_leaf.
  all: try (match goal with H : bool_decide _ = true |- _ =>
              apply bool_decide_eq_true in H end; life_leaf).
Qed.

Lemma ap_life (sender : Z) (shortId : string) (w : World) :
  rtc (life_step config (Some sender)) w (snd (run (ap sender shortId) w)).
Proof.
  unfold ap.
  cbn [run effect getFullTransactionId fst snd].
  destruct (negb (truthy (transactionMappings w !! shortId)));
    [apply rtc_once; by eapply life_same|].
  cbn [run effect transaction_findUnique].
  destruct (db_transaction w !! default "" (transactionMappings w !! shortId));
    [apply accept_life|apply rtc_once; by eapply life_same].
Qed.

Lemma expire_life (actor : option Z) (id url : string) (w : World) :
  rtc (life_step config actor) w (snd (run (expire net id url) w)).
Proof.
  unfold expire.
  crunch; try life_leaf.
  all: try (match goal with H : bool_decide _ = true |- _ =>
              apply bool_decide_eq_true in H end; life_leaf).
Qed.

Lemma set_balance_life (ctx : Ctx) (w : World) :
  rtc (life_step config (Some (from ctx))) w (snd (run (set_balance ctx) w)).
Proof. unfold set_balance. crunch; life_leaf. Qed.

Lemma add_operator_life (ctx : Ctx) (w : World) :
  (isAdmin ctx = true → from ctx = ADMIN_TELEGRAM_ID config) →
  rtc (life_step config (Some (from ctx))) w (snd (run (add_operator ctx) w)).
Proof.
  intros Hctx. unfold add_operator.
  destruct (isAdmin ctx); simpl; [|apply rtc_refl].
  apply rtc_once. eapply life_state; [reflexivity|reflexivity|reflexivity|].
  intros _. by apply Hctx.
Qed.

Lemma handleMessage_life (sender : Z) (text : Text) (uuid : string) (w : World) :
  rtc (life_step config (Some sender)) w (snd (run (handleMessage sender text uuid) w)).
Proof.
  unfold handleMessage, handleBalanceInput, handleOperatorInput, showMainMenu.
  crunch; life_leaf.
Qed.

Lemma dispatch_life (ctx : Ctx) (uuid : string) (u : Update) (w : World) :
  (isAdmin ctx = true → from ctx = ADMIN_TELEGRAM_ID config) →
  rtc (life_step config (Some (from ctx))) w (snd (run (dispatch config net ctx uuid u) w)).
Proof.
  intros Hctx. destruct u; cbn [dispatch].
  - apply ap_life.
  - apply accept_life.
  - apply upload_life.
  - apply handleMessage_life.
  - apply cancel_life.
  - apply set_balance_life.
  - by apply add_operator_life.
Qed.

Lemma middleware_life (sender : Z) (username : option string) (uuid1 : string)
    (next : Ctx → Prog unit) (w : World) :
  (∀ ctx w1, from ctx = sender →
     (isAdmin ctx = true → sender = ADMIN_TELEGRAM_ID config) →
     rtc (life_step config (Some sender)) w1 (snd (run (next ctx) w1))) →
  rtc (life_step config (Some sender)) w
    (snd (run (middleware config sender username uuid1 next) w)).
Proof.
  intros Hnext. unfold middleware.
  cbn [run effect user_findUnique].
  assert (Hctx : ∀ o w1,
            rtc (life_step config (Some sender)) w1
              (snd (run (next {| from := sender;
                                 isAdmin := bool_decide (sender = ADMIN_TELEGRAM_ID config);
                                 isOperator := o |}) w1))).
  { intros o w1. apply Hnext; [done|]. simpl. by intros ?%bool_decide_eq_true. }
  destruct (find_user sender (db_user w)) eqn:Hfind; [apply Hctx|].
  destruct (negb (bool_decide (sender = ADMIN_TELEGRAM_ID config))); [|apply Hctx].
  cbn [run effect user_create].
  match goal with |- context [existsb ?f ?l] => destruct (existsb f l) eqn:Hclash end;
    cbn [run]; [apply rtc_refl|].
  eapply rtc_l; [|apply Hctx].
  eapply life_register; [reflexivity|reflexivity|exact Hclash|done..].
Qed.

Lemma create_life (actor : option Z) (body : CreateBody) (uuid : string) (w : World) :
  rtc (life_step config actor) w (snd (run (create config net body uuid) w)).
Proof.
  unfold create.
  destruct (negb (validateBankId (walletId body))); [apply rtc_refl|].
  destruct (negb (validateAmount config (amount body))); [apply rtc_refl|].
  destruct (negb (validateTimes (expiredTime body) (expiredOfferTime body)));
    [apply rtc_refl|].
  cbn [run effect transaction_create tx_id].
  destruct (db_transaction w !! generateUniqueId uuid) eqn:Hfresh; [apply rtc_refl|].
  cbn [run effect user_findMany].
  match goal with
  | |- context [set_transactions (insert ?i ?t) w] =>
      set (w1 := set_transactions (insert i t) w);
      assert (Hcreate : life_step config actor w w1)
        by (by eapply (life_create config actor w w1 t));
      assert (Hlook : db_transaction w1 !! i = Some t) by apply lookup_insert_eq
  end.
  eapply rtc_l; [exact Hcreate|].
  destruct (Nat.eqb _ 0).
  - cbn [run effect transaction_update]. rewrite Hlook.
    cbn [run snd]. apply rtc_once.
    eapply life_resolve; [reflexivity|exact Hlook|done|by right].
  - rewrite run_notifyOperators.
    match goal with
    | |- context [notified net ?i ?d ?ops w1] =>
        destruct (notified_frame net i d ops w1) as (Htx & Husers & Hshots & Hus & _ & _);
        remember (notified net i d ops w1) as w2 eqn:Hw2
    end.
    cbn [run effect setTimeout snd]. apply rtc_once. eapply life_same.
    unfold tables. simpl. by rewrite Htx, Husers, Hshots, Hus.
Qed.

Lemma perform_life (a : Action) (w : World) :
  rtc (life_step config (actor_of a)) w (snd (run (perform config net a) w)).
Proof.
  destruct a as [body uuid|id url|sender username uuid1 uuid2 u]; cbn [perform actor_of].
  - rewrite run_bind. destruct (run (create config net body uuid) w) as [r w1] eqn:Hrun.
    cbn [run snd]. change w1 with (snd (r, w1)). rewrite <- Hrun. apply create_life.
  - apply expire_life.
  - apply middleware_life. intros ctx w1 <- Hctx. by apply dispatch_life.
Qed.

End Lifecycle.

Section LifecycleProperties.

Context (config : Config) (net : Network).

Lemma tables_inv (w' : World) (a : gmap string Transaction) (b : list User)
    (c : gmap string Screenshot) (d : gmap Z UserState) :
  tables w' = (a, b, c, d) →
  db_transaction w' = a ∧ db_user w' = b ∧ db_screenshot w' = c ∧ userStates w' = d.
Proof. unfold tables. by intros [= -> -> -> ->]. Qed.

Ltac tables :=
  match goal with
  | H : tables _ = _ |- _ =>
      apply tables_inv in H as (?Htx & ?Husers & ?Hshots & ?Hstates)
  end.

(** The finer step is one of the coarser ones. *)
Lemma life_core (actor : option Z) (w w' : World) :
  life_step config actor w w' → core_step w w'.
Proof.
  intros Hstep. destruct Hstep; tables.
  - by eapply core_same.
  - by eapply core_mode.
  - by eapply core_create.
  - by eapply core_resolve.
  - by eapply core_accept.
  - by eapply core_finish.
  - by eapply core_finish.
  - by eapply core_same.
  - by eapply (core_mode _ _ _ idleState).
  - by eapply (core_mode _ _ _ idleState).
  - by eapply (core_mode _ _ _ idleState).
Qed.

(** Induction over the writes of one action, and of a sequence of actions. *)
Lemma rtc_life (actor : option Z) (I : World → Prop) (P : World → World → Prop) :
  (∀ w, P w w) →
  (∀ w1 w2 w3, P w1 w2 → P w2 w3 → P w1 w3) →
  (∀ w w', I w → life_step config actor w w' → I w' ∧ P w w') →
  ∀ w w', rtc (life_step config actor) w w' → I w → I w' ∧ P w w'.
Proof.
  intros Hrefl Htrans Hstep w w' Hsteps.
  induction Hsteps as [w|w w1 w2 H1 Hrest IH]; intros Hw; [by split|].
  destruct (Hstep w w1 Hw H1) as [Hw1 HP1].
  destruct (IH Hw1) as [Hw2 HP2]. split; [done|]. by eapply Htrans.
Qed.

Lemma action_life (I : World → Prop) (P : option Z → World → World → Prop) :
  (∀ actor w, P actor w w) →
  (∀ actor w1 w2 w3, P actor w1 w2 → P actor w2 w3 → P actor w1 w3) →
  (∀ actor w w', I w → life_step config actor w w' → I w' ∧ P actor w w') →
  ∀ a w, I w →
    I (snd (run (perform config net a) w))
    ∧ P (actor_of a) w (snd (run (perform config net a) w)).
Proof.
  intros Hrefl Htrans Hstep a w Hw.
  apply (rtc_life (actor_of a) I (P (actor_of a))); auto.
  - apply Htrans.
  - apply perform_life.
Qed.

Lemma serial_life (I : World → Prop) (P : World → World → Prop) :
  (∀ w, P w w) →
  (∀ w1 w2 w3, P w1 w2 → P w2 w3 → P w1 w3) →
  (∀ actor w w', I w → life_step config actor w w' → I w' ∧ P w w') →
  ∀ actions w, I w →
    I (serial config net actions w) ∧ P w (serial config net actions w).
Proof.
  intros Hrefl Htrans Hstep actions.
  induction actions as [|a actions IH]; intros w Hw; [by split|].
  unfold serial. cbn [foldl]. fold (serial config net actions).
  destruct (action_life I (λ _, P) (λ _, Hrefl) (λ _, Htrans) Hstep a w Hw) as [Hw1 HP1].
  destruct (IH _ Hw1) as [Hw2 HP2]. split; [done|]. by eapply Htrans.
Qed.

Lemma serial_app (before after : list Action) (w : World) :
  serial config net (before ++ after) w
  = serial config net after (serial config net before w).
Proof. unfold serial. apply foldl_app. Qed.

(** One write and one row. *)
Lemma row_step (actor : option Z) (w w' : World) (id : string) (t : Transaction) :
  life_step config actor w w' →
  db_transaction w !! id = Some t →
  ∃ t', db_transaction w' !! id = Some t'
        ∧ same_request t t'
        ∧ (tx_status t ≠ PENDING → tx_status t' ≠ PENDING ∧ same_operator t t').
Proof.
  intros Hstep Ht.
  assert (Hsame : ∃ t', Some t = Some t' ∧ same_request t t'
            ∧ (tx_status t ≠ PENDING → tx_status t' ≠ PENDING ∧ same_operator t t')).
  { exists t. by repeat split. }
  assert (Hupd : ∀ id0 t0 f,
            db_transaction w !! id0 = Some t0 →
            same_request t0 (f t0) →
            (tx_status t0 ≠ PENDING → tx_status (f t0) ≠ PENDING ∧ same_operator t0 (f t0)) →
            ∃ t', <[id0 := f t0]> (db_transaction w) !! id = Some t'
                  ∧ same_request t t'
                  ∧ (tx_status t ≠ PENDING →
                     tx_status t' ≠ PENDING ∧ same_operator t t')).
  { intros id0 t0 f Ht0 Hreq Hop. destruct (decide (id0 = id)) as [->|Hne].
    - rewrite lookup_insert_eq. simplify_eq. by exists (f t).
    - rewrite lookup_insert_ne by done. by rewrite Ht. }
  destruct Hstep; tables; rewrite ?Htx, ?Ht; try done.
  - destruct (decide (tx_id t0 = id)) as [<-|Hne]; [congruence|].
    rewrite lookup_insert_ne by done. by rewrite Ht.
  - apply (Hupd id0 t0 (with_status s)); [done|by repeat split|].
    intros Hnp. by destruct s.
  - apply (Hupd id0 t0 (accepted_by (user_id user) destination0)); [done|by repeat split|].
    intros Hnp. done.
  - apply (Hupd id0 t0 (with_status CANCELLED)); [done|by repeat split|].
    intros Hnp. by repeat split.
  - apply (Hupd id0 t0 (with_status COMPLETED)); [done|by repeat split|].
    intros Hnp. by repeat split.
Qed.

(** X7.  Under serial execution, whatever the world and the actions: a row
    is never deleted and keeps its id, amount, currency, payment method,
    callback address, metadata and expiry; once it is not PENDING it is never
    PENDING again, and its operator and destination stay as they are. *)
Theorem rows_keep_their_request (actions : list Action) (w : World) (id : string)
    (t : Transaction) :
  db_transaction w !! id = Some t →
  ∃ t', db_transaction (serial config net actions w) !! id = Some t'
        ∧ same_request t t'
        ∧ (tx_status t ≠ PENDING → tx_status t' ≠ PENDING ∧ same_operator t t').
Proof.
  intros Ht.
  pose (P := λ w w' : World, ∀ t, db_transaction w !! id = Some t →
     ∃ t', db_transaction w' !! id = Some t'
           ∧ same_request t t'
           ∧ (tx_status t ≠ PENDING → tx_status t' ≠ PENDING ∧ same_operator t t')).
  destruct (serial_life (λ _, True) P) with (actions := actions) (w := w) as [_ HP];
    [| | |done|by apply HP].
  - intros w0 t0 Ht0. exists t0. by repeat split.
  - intros w1 w2 w3 H12 H23 t1 Ht1.
    destruct (H12 t1 Ht1) as (t2 & Ht2 & Hreq12 & Hop12).
    destruct (H23 t2 Ht2) as (t3 & Ht3 & Hreq23 & Hop23).
    exists t3. split; [done|]. split.
    + unfold same_request in *. intuition congruence.
    + intros Hnp. destruct (Hop12 Hnp) as [Hnp2 Hsame2].
      destruct (Hop23 Hnp2) as [Hnp3 Hsame3]. split; [done|].
      unfold same_operator in *. intuition congruence.
  - intros actor w0 w0' _ Hstep. split; [done|].
    intros t0 Ht0. by eapply row_step.
Qed.

(** The user table under its three writes. *)
Lemma find_user_cons (k : Z) (v : User) (us : list User) :
  find_user k (v :: us)
  = if decide (user_telegramId v = k) then Some v else find_user k us.
Proof.
  unfold find_user. cbn [list_find]. destruct (decide (user_telegramId v = k)); [done|].
  destruct (list_find _ us) as [[i x]|]; done.
Qed.

Lemma find_user_app (k : Z) (us : list User) (v : User) :
  find_user k (us ++ [v])
  = match find_user k us with
    | Some u => Some u
    | None => if decide (user_telegramId v = k) then Some v else None
    end.
Proof.
  induction us as [|x us IH].
  - simpl. rewrite find_user_cons. done.
  - rewrite <- app_comm_cons, !find_user_cons.
    destruct (decide (user_telegramId x = k)); [done|]. apply IH.
Qed.

Lemma find_user_update (k op : Z) (f : User → User) (us : list User) :
  (∀ u, user_telegramId (f u) = user_telegramId u) →
  find_user k (update_user op f us)
  = (λ u, if bool_decide (user_telegramId u = op) then f u else u) <$> find_user k us.
Proof.
  intros Hf. induction us as [|x us IH]; [done|].
  unfold update_user in *. rewrite fmap_cons, !find_user_cons, IH.
  assert (Htid : user_telegramId
                   (if bool_decide (user_telegramId x = op) then f x else x)
                 = user_telegramId x) by (by case_bool_decide; rewrite ?Hf).
  rewrite Htid. by destruct (decide (user_telegramId x = k)).
Qed.

Lemma find_user_tid (k : Z) (us : list User) (u : User) :
  find_user k us = Some u → user_telegramId u = k.
Proof. intros H. by apply find_user_Some in H as [_ ?]. Qed.

(** One write and one user: the row stays, with its ids and its name; the
    operator flag is not taken away, and is given only on an update from
    someone whose state awaits an operator id; the balance changes only on
    an update from that user, to a value that is not negative, together with
    the maximum. *)
Lemma user_step (actor : option Z) (w w' : World) (k : Z) (u : User) :
  life_step config actor w w' →
  find_user k (db_user w) = Some u →
  ∃ u', find_user k (db_user w') = Some u'
        ∧ user_id u' = user_id u
        ∧ user_username u' = user_username u
        ∧ (user_isAdmin u = true → user_isAdmin u' = true)
        ∧ (user_isAdmin u' = true →
           user_isAdmin u = true
           ∨ ∃ op st, actor = Some op ∧ userStates w !! op = Some st
                      ∧ awaitingOperatorId st = true)
        ∧ ((user_balance u' = user_balance u ∧ user_maxBalance u' = user_maxBalance u)
           ∨ (actor = Some k ∧ (num 0 ≤ user_balance u')%Qc
              ∧ user_maxBalance u' = user_balance u')).
Proof.
  intros Hstep Hu.
  assert (Hsame : ∃ u', Some u = Some u'
            ∧ user_id u' = user_id u
            ∧ user_username u' = user_username u
            ∧ (user_isAdmin u = true → user_isAdmin u' = true)
            ∧ (user_isAdmin u' = true →
               user_isAdmin u = true
               ∨ ∃ op st, actor = Some op ∧ userStates w !! op = Some st
                          ∧ awaitingOperatorId st = true)
            ∧ ((user_balance u' = user_balance u
                ∧ user_maxBalance u' = user_maxBalance u)
               ∨ (actor = Some k ∧ (num 0 ≤ user_balance u')%Qc
                  ∧ user_maxBalance u' = user_balance u'))).
  { exists u. repeat split; auto. }
  destruct Hstep; tables; rewrite ?Husers, ?find_user_app, ?Hu; try done.
  - rewrite find_user_update, Hu by done. simpl.
    case_bool_decide as Hop; [|done].
    exists (with_balance amount0 u). repeat split; auto.
    right. repeat split; [|done]. apply find_user_tid in Hu. congruence.
  - rewrite find_user_update, Hu by done. simpl.
    case_bool_decide as Hop; [|done].
    exists (as_operator u). repeat split; eauto 10.
Qed.

(** One write and one new user: the row starts with balance zero, as an
    operator only on an update from someone whose state awaits an operator
    id, otherwise on the first update from that user. *)
Lemma new_user_step (actor : option Z) (w w' : World) (k : Z) (u' : User) :
  life_step config actor w w' →
  find_user k (db_user w) = None →
  find_user k (db_user w') = Some u' →
  user_balance u' = num 0 ∧ user_maxBalance u' = num 0
  ∧ (if user_isAdmin u'
     then ∃ op st, actor = Some op ∧ userStates w !! op = Some st
                   ∧ awaitingOperatorId st = true
     else actor = Some k).
Proof.
  intros Hstep Hnone.
  destruct Hstep; tables;
    rewrite ?Husers, ?find_user_app, ?find_user_update, ?Hnone by done; try done.
  - destruct (decide (user_telegramId u = k)) as [<-|]; [|done].
    intros [= <-]. repeat split; try done.
    match goal with H : user_isAdmin u = false |- _ => by rewrite H end.
  - destruct (decide (user_telegramId u = k)) as [<-|]; [|done].
    intros [= <-]. repeat split; try done.
    match goal with H : user_isAdmin u = true |- _ => rewrite H end. eauto 10.
Qed.

(** One write and the operator of an accepted row. *)
Lemma operator_step (actor : option Z) (w w' : World) (id : string) :
  life_step config actor w w' →
  status_of w id = Some ACCEPTED →
  operator_of w' id = operator_of w id ∧ status_of w' id ≠ Some PENDING.
Proof.
  unfold status_of, operator_of. intros Hstep Hacc.
  destruct (db_transaction w !! id) as [t|] eqn:Ht; [|done].
  simpl in Hacc. injection Hacc as Hacc.
  destruct Hstep; tables; rewrite Htx, ?Ht; simpl; try (split; congruence).
  - destruct (decide (tx_id t0 = id)) as [Heq|Hne].
    + subst id. rewrite lookup_insert_eq. simplify_eq.
    + rewrite lookup_insert_ne, Ht by done. simpl. split; congruence.
  - destruct (decide (id0 = id)) as [Heq|Hne].
    + subst id. rewrite lookup_insert_eq. simplify_eq. congruence.
    + rewrite lookup_insert_ne, Ht by done. simpl. split; congruence.
  - destruct (decide (id0 = id)) as [Heq|Hne].
    + subst id. rewrite lookup_insert_eq. simplify_eq. congruence.
    + rewrite lookup_insert_ne, Ht by done. simpl. split; congruence.
  - destruct (decide (id0 = id)) as [Heq|Hne].
    + subst id. rewrite lookup_insert_eq. simplify_eq. simpl. split; [done|congruence].
    + rewrite lookup_insert_ne, Ht by done. simpl. split; congruence.
  - destruct (decide (id0 = id)) as [Heq|Hne].
    + subst id. rewrite lookup_insert_eq. simplify_eq. simpl. split; [done|congruence].
    + rewrite lookup_insert_ne, Ht by done. simpl. split; congruence.
Qed.

(** One write and one pointer: it was there before, or the write is the
    acceptance that sets it. *)
Lemma pointer_step (actor : option Z) (w w' : World) (o : Z) (s0 : UserState)
    (i : string) :
  life_step config actor w w' →
  userStates w' !! o = Some s0 → currentTransactionId s0 = Some i →
  userStates w !! o = Some s0
  ∨ (actor = Some o ∧ status_of w i = Some PENDING ∧ db_user w' = db_user w
     ∧ ∃ user, find_user o (db_user w) = Some user
               ∧ operator_of w' i = Some (user_id user)
               ∧ status_of w' i = Some ACCEPTED).
Proof.
  intros Hstep Hlk Hcur.
  destruct Hstep; tables; rewrite Hstates in Hlk; auto;
    match type of Hlk with
    | <[?k := _]> _ !! o = _ =>
        destruct (decide (k = o)) as [->|Hne];
        [rewrite lookup_insert_eq in Hlk; simplify_eq
        |rewrite lookup_insert_ne in Hlk by done; auto]
    end.
  right. unfold status_of, operator_of. simpl in Hcur. simplify_eq.
  repeat split; try done.
  - match goal with H : db_transaction w !! _ = Some ?t, H' : tx_status ?t = PENDING
      |- _ => by rewrite H; simpl; rewrite H' end.
  - exists user. split; [done|]. by rewrite Htx, lookup_insert_eq.
Qed.

Lemma sound_step (actor : option Z) (w w' : World) :
  sound config w → life_step config actor w w' → sound config w'.
Proof.
  intros (Hcons & Hroles & Hown) Hstep.
  split; [exact (proj1 (core_step_sound w w' Hcons (life_core _ _ _ Hstep)))|].
  split.
  - intros o s0 Hlk Hask.
    destruct Hstep; tables; rewrite Hstates in Hlk; eauto;
      match type of Hlk with
      | <[?k := _]> _ !! o = _ =>
          destruct (decide (k = o)) as [->|Hne];
          [rewrite lookup_insert_eq in Hlk; simplify_eq; auto
          |rewrite lookup_insert_ne in Hlk by done; eauto]
      end.
  - intros o s0 i Hlk Hcur.
    destruct (pointer_step actor w w' o s0 i Hstep Hlk Hcur)
      as [Hold|(_ & _ & Husers & user & Hu & Hop & _)].
    + destruct (Hown o s0 i Hold Hcur) as (user & Hu & Hop).
      destruct (user_step actor w w' o user Hstep Hu) as (u' & Hu' & Hid & _).
      exists u'. split; [done|]. rewrite Hid.
      destruct Hcons as [Hacc _].
      destruct (operator_step actor w w' i Hstep (Hacc o s0 i Hold Hcur)) as [-> _].
      done.
    + exists user. by rewrite Husers.
Qed.

Lemma sound_at_start (w : World) : userStates w = ∅ → sound config w.
Proof.
  intros Hempty. split; [by apply consistent_at_start|].
  split; intros o s0; by rewrite Hempty, lookup_empty.
Qed.

Lemma sound_serial (actions : list Action) (w : World) :
  sound config w → sound config (serial config net actions w).
Proof.
  intros Hw.
  apply (serial_life (sound config) (λ _ _, True)); auto.
  intros actor w1 w2 H1 Hstep. split; [|done]. by eapply sound_step.
Qed.

Lemma leads_to_trans (s1 s2 s3 : TransactionStatus) :
  leads_to s1 s2 = true → leads_to s2 s3 = true → leads_to s1 s3 = true.
Proof. by destruct s1, s2, s3. Qed.

(** One write and one status: it stays, or moves along one edge. *)
Lemma status_step (actor : option Z) (w w' : World) (id : string)
    (s : TransactionStatus) :
  sound config w → life_step config actor w w' →
  status_of w id = Some s →
  ∃ s', status_of w' id = Some s' ∧ (s' = s ∨ edge s s' = true).
Proof.
  intros ([Hacc _] & _ & _) Hstep Hs.
  assert (Hupd : ∀ id0 t0 s0,
            db_transaction w !! id0 = Some t0 →
            db_transaction w' = <[id0 := with_status s0 t0]> (db_transaction w) →
            edge (tx_status t0) s0 = true →
            ∃ s', status_of w' id = Some s' ∧ (s' = s ∨ edge s s' = true)).
  { intros id0 t0 s0 Ht0 Htx Hedge. unfold status_of in *. rewrite Htx.
    destruct (decide (id0 = id)) as [Heq|Hne].
    - subst id0. rewrite lookup_insert_eq. rewrite Ht0 in Hs. simplify_eq.
      simpl in Hs. simplify_eq. exists s0. simpl. auto.
    - rewrite lookup_insert_ne by done. eauto. }
  destruct Hstep; tables;
    try (exists s; split; [unfold status_of in *; by rewrite Htx|by left]).
  - exists s. split; [|by left]. unfold status_of in *. rewrite Htx.
    match goal with H : db_transaction w !! tx_id ?t = None |- _ =>
      destruct (decide (tx_id t = id)) as [Heq|Hne]; [subst id; by rewrite H in Hs|]
    end.
    by rewrite lookup_insert_ne.
  - eapply Hupd; [done..|].
    match goal with H : tx_status _ = PENDING |- _ => rewrite H end.
    match goal with H : _ ∨ _ |- _ => by destruct H as [->| ->] end.
  - unfold status_of in *. rewrite Htx.
    destruct (decide (id0 = id)) as [Heq|Hne].
    + subst id0. rewrite lookup_insert_eq. simplify_eq. exists ACCEPTED.
      split; [done|]. right.
      match goal with
      | H : db_transaction w !! id = Some _, H' : tx_status _ = PENDING |- _ =>
          rewrite H in Hs; simpl in Hs; rewrite H' in Hs
      end.
      by simplify_eq.
    + rewrite lookup_insert_ne by done. eauto.
  - eapply Hupd; [done..|].
    match goal with
    | H1 : userStates w !! _ = Some ?st, H2 : currentTransactionId ?st = Some _ |- _ =>
        pose proof (Hacc _ _ _ H1 H2) as Hst
    end.
    unfold status_of in Hst.
    match goal with H : db_transaction w !! id0 = Some _ |- _ => rewrite H in Hst end.
    simpl in Hst. injection Hst as ->. done.
  - eapply Hupd; [done..|].
    match goal with
    | H1 : userStates w !! _ = Some ?st, H2 : currentTransactionId ?st = Some _ |- _ =>
        pose proof (Hacc _ _ _ H1 H2) as Hst
    end.
    unfold status_of in Hst.
    match goal with H : db_transaction w !! id0 = Some _ |- _ => rewrite H in Hst end.
    simpl in Hst. injection Hst as ->. done.
Qed.

(** X8.  The order of the lifecycle.  Start without operator states and let
    handlers run one after another.  Whatever status a transaction has at
    some point, every later status of it is one that follows in the order
    PENDING, then ACCEPTED or EXPIRED or FAILED, and after ACCEPTED then
    COMPLETED or CANCELLED: a terminal status stays, an accepted transaction
    never expires, fails or returns to PENDING. *)
Theorem lifecycle_order (w0 : World) (before after : list Action) (id : string)
    (s : TransactionStatus) :
  userStates w0 = ∅ →
  status_of (serial config net before w0) id = Some s →
  ∃ s', status_of (serial config net (before ++ after) w0) id = Some s'
        ∧ leads_to s s' = true.
Proof.
  intros Hstart Hs. rewrite serial_app.
  pose proof (sound_serial before w0 (sound_at_start w0 Hstart)) as Hsound.
  pose (P := λ w w' : World, ∀ s, status_of w id = Some s →
     ∃ s', status_of w' id = Some s' ∧ leads_to s s' = true).
  destruct (serial_life (sound config) P) with (actions := after)
    (w := serial config net before w0) as [_ HP]; [| | |done|by apply HP].
  - intros w s1 Hs1. exists s1. split; [done|]. by destruct s1.
  - intros w1 w2 w3 H12 H23 s1 Hs1.
    destruct (H12 s1 Hs1) as (s2 & Hs2 & Hl12).
    destruct (H23 s2 Hs2) as (s3 & Hs3 & Hl23).
    exists s3. split; [done|]. by eapply leads_to_trans.
  - intros actor w w' Hw Hstep. split; [by eapply sound_step|].
    intros s1 Hs1.
    destruct (status_step actor w w' id s1 Hw Hstep Hs1) as (s2 & Hs2 & [->|Hedge]).
    + exists s1. split; [done|]. by destruct s1.
    + exists s2. split; [done|]. by destruct s1, s2.
Qed.

(** X9.  An acceptance nobody holds is stuck.  Under serial execution, a
    transaction that is ACCEPTED while no operator's state points at it stays
    ACCEPTED with no state pointing at it, whatever happens afterwards: it is
    neither completed nor cancelled nor expired. *)
Theorem acceptance_without_state_is_stuck (actions : list Action) (w : World)
    (id : string) :
  status_of w id = Some ACCEPTED →
  (∀ op st, userStates w !! op = Some st → currentTransactionId st ≠ Some id) →
  status_of (serial config net actions w) id = Some ACCEPTED
  ∧ (∀ op st, userStates (serial config net actions w) !! op = Some st →
       currentTransactionId st ≠ Some id).
Proof.
  intros Hs Hfree.
  pose (I := λ w : World, status_of w id = Some ACCEPTED
     ∧ ∀ op st, userStates w !! op = Some st → currentTransactionId st ≠ Some id).
  destruct (serial_life I (λ _ _, True)) with (actions := actions) (w := w)
    as [HI _]; [done|done| |by split|exact HI].
  clear w Hs Hfree. intros actor w w' [Hs Hfree] Hstep. split; [|done]. split.
  - unfold status_of in *.
    destruct (db_transaction w !! id) as [t|] eqn:Ht; [|done].
    simpl in Hs. injection Hs as Hs.
    destruct Hstep; tables; rewrite Htx, ?Ht; simpl; try congruence;
      match goal with
      | |- context [<[?i := _]> _] =>
          destruct (decide (i = id)) as [Heq|Hne];
          [subst id; try congruence
          |rewrite lookup_insert_ne, Ht by done; simpl; congruence]
      end.
    + exfalso. eapply Hfree; eauto.
    + exfalso. eapply Hfree; eauto.
  - intros o s0 Hlk Hcur.
    destruct (pointer_step actor w w' o s0 id Hstep Hlk Hcur)
      as [Hold|(_ & Hpending & _)].
    + by eapply Hfree.
    + congruence.
Qed.

(** X10.  Users are kept.  Under serial execution, whatever the world and
    the actions, a user row is never deleted, keeps its id and its user
    name, and an operator stays an operator: nothing takes the flag away. *)
Theorem users_are_kept (actions : list Action) (w : World) (k : Z) (u : User) :
  find_user k (db_user w) = Some u →
  ∃ u', find_user k (db_user (serial config net actions w)) = Some u'
        ∧ user_id u' = user_id u
        ∧ user_username u' = user_username u
        ∧ (user_isAdmin u = true → user_isAdmin u' = true).
Proof.
  intros Hu.
  pose (P := λ w w' : World, ∀ u, find_user k (db_user w) = Some u →
     ∃ u', find_user k (db_user w') = Some u'
           ∧ user_id u' = user_id u
           ∧ user_username u' = user_username u
           ∧ (user_isAdmin u = true → user_isAdmin u' = true)).
  destruct (serial_life (λ _, True) P) with (actions := actions) (w := w) as [_ HP];
    [| | |done|by apply HP].
  - intros w0 u0 Hu0. by exists u0.
  - intros w1 w2 w3 H12 H23 u1 Hu1.
    destruct (H12 u1 Hu1) as (u2 & Hu2 & Hid2 & Hname2 & Hflag2).
    destruct (H23 u2 Hu2) as (u3 & Hu3 & Hid3 & Hname3 & Hflag3).
    exists u3. repeat split; [done|congruence|congruence|auto].
  - intros actor w0 w0' _ Hstep. split; [done|]. intros u0 Hu0.
    destruct (user_step actor w0 w0' k u0 Hstep Hu0)
      as (u' & Hu' & Hid & Hname & Hflag & _).
    by exists u'.
Qed.

(** X11.  A balance changes only by its owner.  Whatever the world, one
    action leaves the balance and the maximum of a user as they were, unless
    it is an update sent by that very user; then the new balance is not
    negative and the maximum is set to the same value.  So no creation
    request, timer, acceptance or receipt debits an operator. *)
Theorem balance_changes_only_by_owner (a : Action) (w : World) (k : Z) (u : User) :
  find_user k (db_user w) = Some u →
  ∃ u', find_user k (db_user (snd (run (perform config net a) w))) = Some u'
        ∧ ((user_balance u' = user_balance u ∧ user_maxBalance u' = user_maxBalance u)
           ∨ (actor_of a = Some k ∧ (num 0 ≤ user_balance u')%Qc
              ∧ user_maxBalance u' = user_balance u')).
Proof.
  intros Hu.
  pose (P := λ (actor : option Z) (w w' : World),
     ∀ u, find_user k (db_user w) = Some u →
     ∃ u', find_user k (db_user w') = Some u'
           ∧ ((user_balance u' = user_balance u
               ∧ user_maxBalance u' = user_maxBalance u)
              ∨ (actor = Some k ∧ (num 0 ≤ user_balance u')%Qc
                 ∧ user_maxBalance u' = user_balance u'))).
  destruct (action_life (λ _, True) P) with (a := a) (w := w) as [_ HP];
    [| | |done|by apply HP].
  - intros actor w0 u0 Hu0. exists u0. auto.
  - intros actor w1 w2 w3 H12 H23 u1 Hu1.
    destruct (H12 u1 Hu1) as (u2 & Hu2 & Hb2).
    destruct (H23 u2 Hu2) as (u3 & Hu3 & Hb3).
    exists u3. split; [done|].
    destruct Hb3 as [[Hb3 Hm3]|Hb3]; [|by right].
    destruct Hb2 as [[Hb2 Hm2]|(Hactor & Hpos & Hmax)].
    + left. split; congruence.
    + right. rewrite Hb3, Hm3. done.
  - intros actor w0 w0' _ Hstep. split; [done|]. intros u0 Hu0.
    destruct (user_step actor w0 w0' k u0 Hstep Hu0) as (u' & Hu' & _ & _ & _ & _ & Hb).
    by exists u'.
Qed.

(** X12.  Operators are made by the administrator.  Start without operator
    states and let handlers run one after another.  When an action turns
    someone who was not an operator (or was not known at all) into one, that
    action is an update sent by the administrator. *)
Theorem operators_enrolled_by_admin (w0 : World) (before : list Action) (a : Action)
    (k : Z) :
  userStates w0 = ∅ →
  is_operator k (serial config net before w0) = false →
  is_operator k (serial config net (before ++ [a]) w0) = true →
  actor_of a = Some (ADMIN_TELEGRAM_ID config).
Proof.
  intros Hstart Hnot Hop. rewrite serial_app in Hop.
  pose proof (sound_serial before w0 (sound_at_start w0 Hstart)) as Hsound.
  pose (P := λ (actor : option Z) (w w' : World),
     is_operator k w = false → is_operator k w' = true →
     actor = Some (ADMIN_TELEGRAM_ID config)).
  destruct (action_life (sound config) P) with (a := a)
    (w := serial config net before w0) as [_ HP]; [| | |done|by apply HP].
  - intros actor w H1 H2. congruence.
  - intros actor w1 w2 w3 H12 H23 H1 H3.
    destruct (is_operator k w2) eqn:H2; auto.
  - intros actor w w' Hw Hstep. split; [by eapply sound_step|].
    intros H1 H2. destruct Hw as (_ & Hroles & _).
    unfold is_operator in *.
    destruct (find_user k (db_user w)) as [u|] eqn:Hu.
    + destruct (user_step actor w w' k u Hstep Hu)
        as (u' & Hu' & _ & _ & _ & Hflag & _).
      rewrite Hu' in H2. simpl in *.
      destruct (Hflag H2) as [?|(op & st & -> & Hst & Hask)]; [congruence|].
      f_equal. by eapply Hroles.
    + destruct (find_user k (db_user w')) as [u'|] eqn:Hu'; [|done].
      destruct (new_user_step actor w w' k u' Hstep Hu Hu') as (_ & _ & Hflag).
      simpl in H2. rewrite H2 in Hflag.
      destruct Hflag as (op & st & -> & Hst & Hask).
      f_equal. by eapply Hroles.
Qed.

(** A write to one row that is not a completion, with the receipts as they
    were. *)
Lemma receipts_other (w w' : World) (id0 : string) (t' : Transaction) :
  db_transaction w' = <[id0 := t']> (db_transaction w) →
  db_screenshot w' = db_screenshot w →
  db_user w' = db_user w →
  status_of w id0 ≠ Some COMPLETED → tx_status t' ≠ COMPLETED →
  receipts_ok w → receipts_ok w'.
Proof.
  intros Htx Hshots Husers Hwas Hnow Hrec id.
  destruct (Hrec id) as [Hiff Hshot].
  unfold status_of, operator_of in *. rewrite Htx, Hshots, Husers.
  destruct (decide (id0 = id)) as [Heq|Hne].
  - subst id0. rewrite lookup_insert_eq. simpl.
    assert (Hnone : db_screenshot w !! id = None).
    { destruct (db_screenshot w !! id) eqn:Hs; [|done].
      exfalso. apply Hwas, Hiff. eauto. }
    rewrite Hnone. split; [|done]. split; [congruence|by intros [? ?]].
  - by rewrite lookup_insert_ne.
Qed.

Lemma receipts_step (actor : option Z) (w w' : World) :
  sound config w → receipts_ok w → life_step config actor w w' → receipts_ok w'.
Proof.
  intros ([Hacc _] & _ & Hown) Hrec Hstep.
  assert (Hkept : ∀ k u, find_user k (db_user w) = Some u →
            ∃ u', find_user k (db_user w') = Some u' ∧ user_id u' = user_id u).
  { intros k u Hu. destruct (user_step actor w w' k u Hstep Hu) as (u' & ? & ? & _).
    by exists u'. }
  assert (Hframe : db_transaction w' = db_transaction w →
                   db_screenshot w' = db_screenshot w → receipts_ok w').
  { intros Htx Hshots id. destruct (Hrec id) as [Hiff Hshot].
    unfold status_of, operator_of in *. rewrite Htx, Hshots. split; [done|].
    intros shot Hs. destruct (Hshot shot Hs) as (Hid & Hop & k & u & Hu & Huid).
    repeat split; try done.
    destruct (Hkept k u Hu) as (u' & Hu' & Hid').
    exists k, u'. split; [done|congruence]. }
  assert (Hpending : ∀ id0 t0, db_transaction w !! id0 = Some t0 →
            tx_status t0 ≠ COMPLETED → status_of w id0 ≠ Some COMPLETED).
  { intros id0 t0 Ht0 Hst. unfold status_of. rewrite Ht0. simpl. congruence. }
  destruct Hstep; try (tables; by apply Hframe).
  - tables. eapply receipts_other; eauto.
    + unfold status_of.
      match goal with H : db_transaction w !! _ = None |- _ => by rewrite H end.
    + congruence.
  - tables. eapply receipts_other; eauto.
    + eapply Hpending; eauto. congruence.
    + match goal with H : _ ∨ _ |- _ => destruct H as [->| ->]; done end.
  - tables. eapply receipts_other; eauto.
    eapply Hpending; eauto. congruence.
  - tables. eapply receipts_other; eauto.
    match goal with
    | H1 : userStates w !! _ = Some ?st, H2 : currentTransactionId ?st = Some _ |- _ =>
        rewrite (Hacc _ _ _ H1 H2)
    end.
    done.
  - tables. intros i. destruct (Hrec i) as [Hiff Hshot].
    unfold status_of, operator_of in *. rewrite Htx, Hshots, Husers.
    destruct (decide (id = i)) as [Heq|Hne].
    + subst i. rewrite !lookup_insert_eq. simpl. split; [by split; eauto|].
      intros shot' [= <-]. split; [done|].
      match goal with
      | H1 : userStates w !! ?o = Some ?st, H2 : currentTransactionId ?st = Some _ |- _ =>
          destruct (Hown _ _ _ H1 H2) as (user' & Hu' & Hop)
      end.
      unfold operator_of in Hop.
      match goal with H : db_transaction w !! id = Some _ |- _ => rewrite H in Hop end.
      simpl in Hop. split; [|eauto 10]. congruence.
    + by rewrite !lookup_insert_ne.
Qed.

(** X13.  Receipts and completions agree.  Start without operator states,
    receipts and completed transactions, and let handlers run one after
    another.  Then at every point a transaction is COMPLETED exactly when a
    receipt is stored for it (so the status query reports 2 exactly then),
    and the receipt is filed under that transaction and under the user id of
    the operator who accepted it, a user on record. *)
Theorem receipts_match_completions (w0 : World) (actions : list Action) (id : string) :
  userStates w0 = ∅ → db_screenshot w0 = ∅ →
  (∀ i, status_of w0 i ≠ Some COMPLETED) →
  let w := serial config net actions w0 in
  (status_of w id = Some COMPLETED ↔ is_Some (db_screenshot w !! id))
  ∧ (sr_status (payoutStatus id w) = 2%Z ↔ is_Some (db_screenshot w !! id))
  ∧ (∀ shot, db_screenshot w !! id = Some shot →
       shot_transactionId shot = id
       ∧ operator_of w id = Some (shot_userId shot)
       ∧ ∃ k u, find_user k (db_user w) = Some u ∧ user_id u = shot_userId shot).
Proof.
  intros Hstart Hshots Hnone. cbv zeta.
  assert (Hrec0 : receipts_ok w0).
  { intros i. rewrite Hshots, lookup_empty. split; [|done]. split.
    - intros H. by destruct (Hnone i).
    - by intros [? ?]. }
  destruct (serial_life (λ w, sound config w ∧ receipts_ok w) (λ _ _, True))
    with (actions := actions) (w := w0) as [[_ Hrec] _];
    [done|done| |by split; [apply sound_at_start|]|].
  { intros actor w w' [Hw Hr] Hstep. split; [|done]. split.
    - by eapply sound_step.
    - by eapply receipts_step. }
  destruct (Hrec id) as [Hiff Hshot]. split; [done|]. split; [|done].
  rewrite <- Hiff. unfold payoutStatus, status_of.
  destruct (db_transaction _ !! id) as [t|]; simpl; [|done].
  destruct (tx_status t); simpl; split; done.
Qed.

End LifecycleProperties.

Lemma rows_keep_their_request_witness :
  ∃ t', db_transaction
          (serial config0 everything_delivered
             [ BotUpdate 7 (Some "op1") "u-x" "u-y" (PhotoOrDocument photo_ok);
               TimerFires txA "https://api.example.com/callback" ] world_accepted)
          !! txA = Some t'
        ∧ same_request (accepted_by "u-1" "4276123456789012" txA_row) t'
        ∧ (tx_status (accepted_by "u-1" "4276123456789012" txA_row) ≠ PENDING →
           tx_status t' ≠ PENDING
           ∧ same_operator (accepted_by "u-1" "4276123456789012" txA_row) t').
Proof.
  apply (rows_keep_their_request config0 everything_delivered
           [ BotUpdate 7 (Some "op1") "u-x" "u-y" (PhotoOrDocument photo_ok);
             TimerFires txA "https://api.example.com/callback" ] world_accepted txA
           (accepted_by "u-1" "4276123456789012" txA_row)).
  vm_compute. reflexivity.
Defined.

Lemma lifecycle_order_witness :
  ∃ s', status_of
          (serial config0 everything_delivered
             ([ CreateRequest body500 uuidA;
                BotUpdate 7 (Some "op1") "u-x" "u-y" (ApButton "TX_550e8400") ]
              ++ [ TimerFires txA "https://api.example.com/callback";
                   BotUpdate 7 (Some "op1") "u-x" "u-y" (PhotoOrDocument photo_ok) ])
             world0) txA = Some s'
        ∧ leads_to ACCEPTED s' = true.
Proof.
  apply (lifecycle_order config0 everything_delivered world0
           [ CreateRequest body500 uuidA;
             BotUpdate 7 (Some "op1") "u-x" "u-y" (ApButton "TX_550e8400") ]
           [ TimerFires txA "https://api.example.com/callback";
             BotUpdate 7 (Some "op1") "u-x" "u-y" (PhotoOrDocument photo_ok) ]
           txA ACCEPTED).
  - reflexivity.
  - vm_compute. reflexivity.
Defined.

Lemma acceptance_without_state_is_stuck_witness :
  status_of
    (serial config0 everything_delivered
       [ BotUpdate 7 (Some "op1") "u-x" "u-y" (PhotoOrDocument photo_ok);
         BotUpdate 7 (Some "op1") "u-x" "u-y" CancelButton;
         TimerFires txA "https://api.example.com/callback" ] world_orphaned) txA
  = Some ACCEPTED
  ∧ (∀ op st,
       userStates
         (serial config0 everything_delivered
            [ BotUpdate 7 (Some "op1") "u-x" "u-y" (PhotoOrDocument photo_ok);
              BotUpdate 7 (Some "op1") "u-x" "u-y" CancelButton;
              TimerFires txA "https://api.example.com/callback" ] world_orphaned)
         !! op = Some st →
       currentTransactionId st ≠ Some txA).
Proof.
  apply (acceptance_without_state_is_stuck config0 everything_delivered
           [ BotUpdate 7 (Some "op1") "u-x" "u-y" (PhotoOrDocument photo_ok);
             BotUpdate 7 (Some "op1") "u-x" "u-y" CancelButton;
             TimerFires txA "https://api.example.com/callback" ] world_orphaned txA).
  - vm_compute. reflexivity.
  - assert (Hstates : userStates world_orphaned
                      = <[7%Z := {| awaitingBalance := true; awaitingOperatorId := false;
                                    awaitingScreenshot := false;
                                    currentTransactionId := None |}]> ∅)
      by (vm_compute; reflexivity).
    intros op st. rewrite Hstates.
    intros [[<- <-]|[_ Hl]]%lookup_insert_Some; [discriminate|].
    by rewrite lookup_empty in Hl.
Defined.

Lemma users_are_kept_witness :
  ∃ u', find_user 7
          (db_user (serial config0 everything_delivered
                      [ CreateRequest body500 uuidA;
                        BotUpdate 7 (Some "renamed") "u-x" "u-y" SetBalanceButton ]
                      world0)) = Some u'
        ∧ user_id u' = user_id operator1
        ∧ user_username u' = user_username operator1
        ∧ (user_isAdmin operator1 = true → user_isAdmin u' = true).
Proof.
  apply (users_are_kept config0 everything_delivered
           [ CreateRequest body500 uuidA;
             BotUpdate 7 (Some "renamed") "u-x" "u-y" SetBalanceButton ]
           world0 7 operator1).
  reflexivity.
Defined.

Lemma balance_changes_only_by_owner_witness :
  ∃ u', find_user 7
          (db_user (snd (run (perform config0 everything_delivered
                                (BotUpdate 7 (Some "op1") "u-x" "u-y"
                                   (PhotoOrDocument photo_ok))) world_accepted)))
        = Some u'
        ∧ ((user_balance u' = user_balance operator1
            ∧ user_maxBalance u' = user_maxBalance operator1)
           ∨ (actor_of (BotUpdate 7 (Some "op1") "u-x" "u-y" (PhotoOrDocument photo_ok))
              = Some 7%Z
              ∧ (num 0 ≤ user_balance u')%Qc
              ∧ user_maxBalance u' = user_balance u')).
Proof.
  apply (balance_changes_only_by_owner config0 everything_delivered
           (BotUpdate 7 (Some "op1") "u-x" "u-y" (PhotoOrDocument photo_ok))
           world_accepted 7 operator1).
  vm_compute. reflexivity.
Defined.

Lemma operators_enrolled_by_admin_witness :
  actor_of (BotUpdate 1 None "u-x" "u-9"
              (TextMessage {| text_float := None; text_bigint := Some 99%Z |}))
  = Some (ADMIN_TELEGRAM_ID config0).
Proof.
  apply (operators_enrolled_by_admin config0 everything_delivered world0
           [BotUpdate 1 None "u-x" "u-y" AddOperatorButton]
           (BotUpdate 1 None "u-x" "u-9"
              (TextMessage {| text_float := None; text_bigint := Some 99%Z |}))
           99).
  - reflexivity.
  - vm_compute. reflexivity.
  - vm_compute. reflexivity.
Defined.

Lemma receipts_match_completions_witness :
  let w := serial config0 everything_delivered
             [ CreateRequest body500 uuidA;
               BotUpdate 7 (Some "op1") "u-x" "u-y" (ApButton "TX_550e8400");
               BotUpdate 7 (Some "op1") "u-x" "u-y" (PhotoOrDocument photo_ok) ]
             world0 in
  (status_of w txA = Some COMPLETED ↔ is_Some (db_screenshot w !! txA))
  ∧ (sr_status (payoutStatus txA w) = 2%Z ↔ is_Some (db_screenshot w !! txA))
  ∧ (∀ shot, db_screenshot w !! txA = Some shot →
       shot_transactionId shot = txA
       ∧ operator_of w txA = Some (shot_userId shot)
       ∧ ∃ k u, find_user k (db_user w) = Some u ∧ user_id u = shot_userId shot).
Proof.
  apply (receipts_match_completions config0 everything_delivered world0
           [ CreateRequest body500 uuidA;
             BotUpdate 7 (Some "op1") "u-x" "u-y" (ApButton "TX_550e8400");
             BotUpdate 7 (Some "op1") "u-x" "u-y" (PhotoOrDocument photo_ok) ]
           txA).
  - reflexivity.
  - reflexivity.
  - intros i. unfold status_of. simpl. by rewrite lookup_empty.
Defined.

(** ** From the request to the acceptance *)

Section Acceptance.

Context (config : Config) (net : Network).




End Acceptance.

(** ** The callback data of the accept button *)

Lemma match_ap_unfold (c : ascii) (r : string) :
  match_ap (String c r)
  = match strip_ap (String c r) with
    | Some rest =>
        match ap_groups rest with
        | Some groups => Some groups
        | None => match_ap r
        end
    | None => match_ap r
    end.
Proof. done. Qed.

Lemma strip_ap_Some (s rest : string) :
  strip_ap s = Some rest → s = String "a" (String "p" (String ":" rest)).
Proof.
  destruct s as [|c1 [|c2 [|c3 r]]]; simpl; try done.
  repeat case_bool_decide; simpl; intros; by simplify_eq.
Qed.

Lemma span_all (p : ascii → bool) (s : string) :
  string_forall p s = true → span p s = (s, "").
Proof.
  induction s as [|c s IH]; simpl; [done|].
  intros [Hc Hs]%andb_true_iff. by rewrite Hc, (IH Hs).
Qed.

Lemma match_ap_no_colon (s : string) :
  string_forall not_colon s = true → match_ap s = None.
Proof.
  induction s as [|c s IH]; [done|].
  intros Hs. rewrite match_ap_unfold.
  simpl in Hs. apply andb_true_iff in Hs as [Hc Hs].
  destruct (strip_ap (String c s)) as [rest|] eqn:Hstrip; [|by apply IH].
  apply strip_ap_Some in Hstrip. injection Hstrip as -> ->. done.
Qed.

Lemma match_ap_one_colon (u d : string) :
  string_forall not_colon u = true → string_forall not_colon d = true →
  match_ap (u +:+ String ":" d) = None.
Proof.
  intros Hu Hd. induction u as [|c u IH].
  - change ("" +:+ String ":" d) with (String ":" d). rewrite match_ap_unfold.
    destruct (strip_ap _) eqn:Hstrip; [by apply strip_ap_Some in Hstrip|].
    by apply match_ap_no_colon.
  - simpl in Hu. apply andb_true_iff in Hu as [Hc Hu].
    change (String c u +:+ String ":" d) with (String c (u +:+ String ":" d)).
    rewrite match_ap_unfold, (IH Hu).
    destruct (strip_ap _) as [rest|] eqn:Hstrip; [|done].
    apply strip_ap_Some in Hstrip.
    destruct u as [|c2 [|c3 u']]; simpl in Hstrip; try (by simplify_eq).
    injection Hstrip as -> -> <-. unfold ap_groups. rewrite span_all by done.
    by destruct d.
Qed.

(** X15.  The callback data of the accept button, as the accept expression
    reads it.  When the short id and the last four characters of the
    destination hold no colon, the expression matches exactly when those
    last characters begin with a digit, and its first group is then the
    short id: the handler runs for that short id.  Otherwise (a destination
    that is empty or whose last four characters begin with something else)
    nothing matches and the button starts no handler. *)
Theorem accept_button_parses (sender : Z) (transactionId destination : string) :
  string_forall not_colon (shortTxId transactionId) = true →
  shortTxId transactionId ≠ "" →
  string_forall not_colon (shortDestination destination) = true →
  match fst (span is_digit (shortDestination destination)) with
  | EmptyString =>
      match_ap (accept_button_data transactionId destination) = None
      ∧ ap_action sender (accept_button_data transactionId destination) = Ret ()
  | digits =>
      match_ap (accept_button_data transactionId destination)
      = Some (shortTxId transactionId, digits)
      ∧ ap_action sender (accept_button_data transactionId destination)
        = ap sender (shortTxId transactionId)
  end.
Proof.
  intros Hshort Hne Hdest.
  assert (Hmatch : match_ap (accept_button_data transactionId destination)
            = match fst (span is_digit (shortDestination destination)) with
              | EmptyString => None
              | digits => Some (shortTxId transactionId, digits)
              end).
  { unfold accept_button_data.
    change ("ap:" +:+ shortTxId transactionId +:+ ":" +:+ shortDestination destination)
      with (String "a" (String "p" (String ":"
              (shortTxId transactionId +:+ String ":" (shortDestination destination))))).
    pose proof (match_ap_one_colon _ _ Hshort Hdest) as Hrest.
    remember (shortTxId transactionId) as short eqn:Hs. clear Hs.
    remember (shortDestination destination) as d eqn:Hd. clear Hd.
    rewrite match_ap_unfold. cbn [strip_ap].
    rewrite !bool_decide_eq_true_2 by done. cbn [andb].
    unfold ap_groups. rewrite span_run by done.
    destruct short as [|g gs]; [done|].
    rewrite bool_decide_eq_true_2 by done.
    destruct (fst (span is_digit d)); [|done].
    rewrite match_ap_unfold. cbn [strip_ap].
    rewrite (bool_decide_eq_false_2 ("p"%char = "a"%char)) by done. cbn [andb].
    rewrite match_ap_unfold.
    destruct (strip_ap (String ":" _)) eqn:Hstrip;
      [by apply strip_ap_Some in Hstrip|].
    exact Hrest. }
  unfold ap_action. rewrite Hmatch.
  by destruct (fst (span is_digit (shortDestination destination))).
Qed.

Lemma accept_button_parses_witness :
  match_ap (accept_button_data txA "4276123456789012") = Some ("TX_550e8400", "9012")
  ∧ ap_action 7 (accept_button_data txA "4276123456789012") = ap 7 "TX_550e8400".
Proof.
  apply (accept_button_parses 7 txA "4276123456789012"); [reflexivity|discriminate|reflexivity].
Defined.


(** ** Bank ids and their display names *)

Lemma property_Some_key (key : string) (obj : list (string * string)) :
  is_Some (property key obj) ↔ key ∈ obj.*1.
Proof.
  induction obj as [|[k v] obj IH]; simpl.
  - split; [by intros [? ?]|by intros ?%elem_of_nil].
  - case_bool_decide as Hk.
    + subst k. split; [intros _; apply elem_of_cons; by left|by eexists].
    + rewrite IH, elem_of_cons. split; [auto|]. intros [Heq|Hin]; [|done].
      by destruct Hk.
Qed.

(** X16.  The ids [validateBankId] accepts are exactly those that have a
    display name, in any letter case; for such an id [getBankName] returns
    that name and never falls back to the id. *)
Theorem supported_banks_have_names (bankId : string) :
  (validateBankId bankId = true
   ↔ is_Some (property (toLowerCase bankId) BANK_NAMES))
  ∧ (validateBankId bankId = true →
     property (toLowerCase bankId) BANK_NAMES = Some (getBankName bankId)).
Proof.
  assert (Hiff : validateBankId bankId = true
                 ↔ is_Some (property (toLowerCase bankId) BANK_NAMES)).
  { unfold validateBankId. rewrite bool_decide_eq_true, property_Some_key. done. }
  split; [done|].
  intros Hvalid. apply Hiff in Hvalid as [name Hname].
  unfold getBankName. cbv zeta. rewrite Hname.
  assert (Hne : name ≠ "").
  { clear Hiff. revert Hname. generalize (toLowerCase bankId). intros key.
    unfold BANK_NAMES. simpl.
    repeat (case_bool_decide; [by intros [= <-]|]). done. }
  unfold truthy. by rewrite bool_decide_eq_false_2.
Qed.

Lemma supported_banks_have_names_witness :
  property (toLowerCase "SberBank") BANK_NAMES = Some (getBankName "SberBank").
Proof.
  apply (proj2 (supported_banks_have_names "SberBank")). reflexivity.
Defined.
